(** * Scene Detection Sandbox: playground front end

    A shallow embedding of the playground's JavaScript modules
    (inference_timeline.js, player_view.js, store.js, the console part of
    view.js, and the polling loop of inference_manager.js /
    session_manager.js), together with the properties of the inference
    session controller and of the timeline reconstructor.

    Conventions of the embedding.
    - JavaScript integers (array indices, the cursor, skip offsets) are [Z];
      lengths and loop counters that never go negative are [nat].
    - Times are finite JavaScript numbers; they are embedded in [Q], where
      the comparisons of the source ([>=], [<]) are exact.
    - Strings are [string]; [includes] and the global [replace] work on the
      characters of the string as the source does.
    - A DOM element that [document.getElementById] may fail to find is an
      [option]; a function body that would throw a [TypeError] completes
      with [Throws], in the state it had reached.
    - What the browser does on its own (firing [timeupdate], parsing the
      markup of an element into its text) is an input of the model. *)

From Stdlib Require Import Strings.String Strings.Ascii.
From Stdlib Require Import List ZArith QArith Bool Lia.
Import ListNotations.

Local Open Scope bool_scope.
Local Open Scope list_scope.

(** ** JavaScript helpers *)

Module JS.

(** Outcome of a function body over a state of type [A]: it returns
    normally, or throws in the state reached at the throw. *)
Inductive completion (A : Type) : Type :=
| Normal (a : A)
| Throws (a : A).
Arguments Normal {A} a.
Arguments Throws {A} a.

(** [arr[i]] for an integer [i]: [undefined] (here [None]) out of range. *)
Definition get {A : Type} (arr : list A) (i : Z) : option A :=
  if (i <? 0)%Z then None else nth_error arr (Z.to_nat i).

(** [arr.length]. *)
Definition len {A : Type} (arr : list A) : Z := Z.of_nat (length arr).

(** [arr.findIndex(p)]: the index of the first element satisfying [p],
    [-1] when there is none. *)
Fixpoint findIndex_from {A : Type} (p : A -> bool) (arr : list A) (i : Z) : Z :=
  match arr with
  | [] => (-1)%Z
  | x :: rest => if p x then i else findIndex_from p rest (i + 1)%Z
  end.

Definition findIndex {A : Type} (p : A -> bool) (arr : list A) : Z :=
  findIndex_from p arr 0%Z.

(** [a < b] on finite numbers. *)
Definition Qlt_bool (a b : Q) : bool := negb (Qle_bool b a).

(** [s.includes(pat)]. *)
Fixpoint includes (s pat : string) : bool :=
  String.prefix pat s
  || match s with
     | EmptyString => false
     | String _ s' => includes s' pat
     end.

(** [s.replace(/re/g, ...)] for a pattern given as a matcher: at each
    position [m] answers the length of the match and its replacement.
    Matches are found left to right and replaced text is not rescanned.
    [skip] counts the characters of the current match still to drop. *)
Fixpoint replaceAll_go (m : string -> option (nat * string)) (skip : nat)
         (s : string) : string :=
  match s with
  | EmptyString => EmptyString
  | String c s' =>
      match skip with
      | S k => replaceAll_go m k s'
      | O =>
          match m s with
          | Some (S k, rep) => (rep ++ replaceAll_go m k s')%string
          | _ => String c (replaceAll_go m O s')
          end
      end
  end.

Definition replaceAll (m : string -> option (nat * string)) (s : string) : string :=
  replaceAll_go m O s.

(** Matcher of a literal pattern. *)
Definition literal (pat rep : string) (s : string) : option (nat * string) :=
  if String.prefix pat s then Some (String.length pat, rep) else None.

End JS.

(** ** The shot records and the store (store.js) *)

(** A shot of the result set, with the fields the modelled code reads. *)
Record Shot : Type := mkShot {
shot_id : string;
start_time : Q;
end_time : Q;
is_scene_break : bool
}.

(** ** Timeline rendering and scene grouping (inference_timeline.js) *)

Module Timeline.

(** What [injectSceneBlock] adds to the grid: a scene header (its index,
    its shot count and its duration) followed by one card per shot. *)
Record SceneBlock : Type := mkBlock {
  scene_index : nat;
  scene_shots : list Shot;
  scene_duration : Q
}.

Definition injectSceneBlock (container : list SceneBlock) (shots : list Shot)
           (index : nat) : list SceneBlock :=
  match shots with
  | [] => container
  | head :: _ =>
      let tail := last shots head in
      let duration := (end_time tail - start_time head)%Q in
      container ++ [mkBlock index shots duration]
  end.

(** The variables [renderTimeline] updates while it walks the shots. *)
Record RenderState : Type := mkRender {
  gridContainer : list SceneBlock;
  sceneBuffer : list Shot;
  sceneCount : nat
}.

(** Body of the [forEach] callback. *)
Definition visit (st : RenderState) (shot : Shot) (idx : nat) : RenderState :=
  let st1 :=
    if is_scene_break shot && negb (idx =? 0)%nat then
      mkRender (injectSceneBlock (gridContainer st) (sceneBuffer st) (sceneCount st))
               [] (S (sceneCount st))
    else st in
  mkRender (gridContainer st1) (sceneBuffer st1 ++ [shot]) (sceneCount st1).

Fixpoint forEach_from (idx : nat) (shots : list Shot) (st : RenderState) : RenderState :=
  match shots with
  | [] => st
  | shot :: rest => forEach_from (S idx) rest (visit st shot idx)
  end.

(** Flush of the final scene block. *)
Definition flush (st : RenderState) : list SceneBlock :=
  if (0 <? length (sceneBuffer st))%nat then
    injectSceneBlock (gridContainer st) (sceneBuffer st) (sceneCount st)
  else gridContainer st.

(** [renderTimeline], on a grid container that exists: the grid is
    emptied, then filled block by block from [store.inferenceResults]. *)
Definition renderTimeline (inferenceResults : list Shot) : list SceneBlock :=
  flush (forEach_from 0 inferenceResults (mkRender [] [] 1)).

(** The scenes of a shot sequence: the shots of each rendered block. *)
Definition groupScenes (shots : list Shot) : list (list Shot) :=
  map scene_shots (renderTimeline shots).

(** The grouping as the specification words it: a buffer opened by shot 0,
    closed at each later boundary shot, and flushed at the end. *)
Fixpoint scan_spec (buffer : list Shot) (rest : list Shot) : list (list Shot) :=
  match rest with
  | [] => [buffer]
  | shot :: rest' =>
      if is_scene_break shot then buffer :: scan_spec [shot] rest'
      else scan_spec (buffer ++ [shot]) rest'
  end.

Definition groupScenes_spec (shots : list Shot) : list (list Shot) :=
  match shots with
  | [] => []
  | shot0 :: rest => scan_spec [shot0] rest
  end.

(** Boundary flags exactly at indices 2 and 5, shot 0 apart. *)
Definition breaks_at_2_and_5 (shots : list Shot) : Prop :=
  forall i s, nth_error shots i = Some s -> (0 < i)%nat ->
              is_scene_break s = ((i =? 2)%nat || (i =? 5)%nat).

End Timeline.

(** ** The store (store.js) *)

Module Store.

(** The fields of the store that hold session and navigation state.
    ([videoFile], [totalInferenceTime] and [activeModelName] are display
    data and are left out.) *)
Record t : Type := mk {
  videoUrl : option string;
  activeSessionId : option string;
  inferenceResults : list Shot;
  currentShotIndex : Z
}.

Definition initial : t := mk None None [] (-1)%Z.

Definition reset (s : t) : t := mk None None [] (-1)%Z.

Definition set_currentShotIndex (i : Z) (s : t) : t :=
  mk (videoUrl s) (activeSessionId s) (inferenceResults s) i.

Definition set_session (sessionId : string) (shots : list Shot) (s : t) : t :=
  mk (videoUrl s) (Some sessionId) shots (currentShotIndex s).

End Store.

(** ** The player (player_view.js) *)

Module Player.

(** The [<video>] element: its source, playhead, paused flag, and whether
    [syncPlayer] has attached the [ontimeupdate] handler. *)
Record VideoElement : Type := mkVideo {
  src : option string;
  currentTime : Q;
  paused : bool;
  ontimeupdate : bool
}.

(** The overlay element showing the identifier of the active shot. *)
Record OverlayElement : Type := mkOverlay {
  overlay_text : string;
  overlay_displayed : bool
}.

(** The page as the player module sees it.  [video_el] and [overlay_el] are
    the elements of the document ([None] when the page has none); [bound]
    says whether [initPlayer] has assigned the module variables
    [videoPlayer] and [overlay]; [shotGrid] is the rendered timeline;
    [highlighted] lists the calls of [updateActiveHighlight], oldest first:
    the selection-changed notifications. *)
Record Page : Type := mkPage {
  store : Store.t;
  video_el : option VideoElement;
  overlay_el : option OverlayElement;
  bound : bool;
  shotGrid : list Timeline.SceneBlock;
  highlighted : list string
}.

Definition initial : Page := mkPage Store.initial None None false [] [].

(** Value of the module variable [videoPlayer]. *)
Definition videoPlayer (w : Page) : option VideoElement :=
  if bound w then video_el w else None.

(** Value of the module variable [overlay]. *)
Definition overlay (w : Page) : option OverlayElement :=
  if bound w then overlay_el w else None.

Definition set_store (s : Store.t) (w : Page) : Page :=
  mkPage s (video_el w) (overlay_el w) (bound w) (shotGrid w) (highlighted w).

Definition set_video (v : VideoElement) (w : Page) : Page :=
  mkPage (store w) (Some v) (overlay_el w) (bound w) (shotGrid w) (highlighted w).

Definition set_overlay (o : OverlayElement) (w : Page) : Page :=
  mkPage (store w) (video_el w) (Some o) (bound w) (shotGrid w) (highlighted w).

Definition set_currentTime (t : Q) (v : VideoElement) : VideoElement :=
  mkVideo (src v) t (paused v) (ontimeupdate v).

(** [updateActiveHighlight(id)] of inference_timeline.js, as the
    notification it is. *)
Definition updateActiveHighlight (id : string) (w : Page) : Page :=
  mkPage (store w) (video_el w) (overlay_el w) (bound w) (shotGrid w)
         (highlighted w ++ [id]).

(** [currentSrc !== src] on a source that may be [null]. *)
Definition differs (currentSrc source : option string) : bool :=
  match currentSrc, source with
  | Some a, Some b => negb (String.eqb a b)
  | None, None => false
  | _, _ => true
  end.

(** [initPlayer(src)]: binds the module variables and gives the element
    the new source when it differs from the current one. *)
Definition initPlayer (source : option string) (w : Page) : Page :=
  let w1 := mkPage (store w) (video_el w) (overlay_el w) true (shotGrid w)
                   (highlighted w) in
  match videoPlayer w1 with
  | None => w1
  | Some v =>
      if differs (src v) source then
        set_video (mkVideo source (currentTime v) (paused v) (ontimeupdate v)) w1
      else w1
  end.

(** The predicate of the range scan: the shot is under the playhead. *)
Definition under_playhead (t : Q) (s : Shot) : bool :=
  Qle_bool (start_time s) t && JS.Qlt_bool t (end_time s).

(** The playback position to active shot mapping of the time handler. *)
Definition activeShotAt (t : Q) (shots : list Shot) : Z :=
  JS.findIndex (under_playhead t) shots.

(** Body of the [ontimeupdate] handler installed by [syncPlayer]; it reads
    the playhead through the module variable [videoPlayer]. *)
Definition timeupdate_handler (w : Page) : JS.completion Page :=
  match videoPlayer w with
  | None => JS.Throws w
  | Some v =>
      let t := currentTime v in
      let shotIdx := activeShotAt t (Store.inferenceResults (store w)) in
      if negb (shotIdx =? -1)%Z
         && negb (shotIdx =? Store.currentShotIndex (store w))%Z then
        let w1 := set_store (Store.set_currentShotIndex shotIdx (store w)) w in
        match JS.get (Store.inferenceResults (store w1)) shotIdx with
        | None => JS.Throws w1
        | Some activeShot =>
            let w2 := updateActiveHighlight (shot_id activeShot) w1 in
            match overlay w2 with
            | Some _ => JS.Normal (set_overlay (mkOverlay (shot_id activeShot) true) w2)
            | None => JS.Normal w2
            end
        end
      else JS.Normal w
  end.

(** [syncPlayer()]: attaches the handler. *)
Definition syncPlayer (w : Page) : Page :=
  match videoPlayer w with
  | None => w
  | Some v => set_video (mkVideo (src v) (currentTime v) (paused v) true) w
  end.

(** The browser fires [timeupdate]: the handler runs when attached. *)
Definition fire_timeupdate (w : Page) : JS.completion Page :=
  match video_el w with
  | Some v => if ontimeupdate v then timeupdate_handler w else JS.Normal w
  | None => JS.Normal w
  end.

(** Playback (or a completed seek) brings the playhead to [t] and the
    browser fires [timeupdate]. *)
Definition playhead_reaches (t : Q) (w : Page) : JS.completion Page :=
  match video_el w with
  | Some v => fire_timeupdate (set_video (set_currentTime t v) w)
  | None => JS.Normal w
  end.

(** The common tail of the three navigation functions: move the playhead
    to the start of the target and, when paused, highlight it. *)
Definition jump (v : VideoElement) (target : Shot) (w : Page) : Page :=
  let w1 := set_video (set_currentTime (start_time target) v) w in
  if paused v then updateActiveHighlight (shot_id target) w1 else w1.

(** [skipToShot(offset)]. *)
Definition skipToShot (offset : Z) (w : Page) : JS.completion Page :=
  let results := Store.inferenceResults (store w) in
  match videoPlayer w with
  | None => JS.Normal w
  | Some v =>
      if (JS.len results =? 0)%Z then JS.Normal w
      else
        let newIdx := Z.max 0 (Z.min (Store.currentShotIndex (store w) + offset)
                                     (JS.len results - 1)) in
        match JS.get results newIdx with
        | None => JS.Throws w
        | Some targetShot => JS.Normal (jump v targetShot w)
        end
  end.

(** Result of the [while] loop of [skipToScene]. *)
Inductive ScanResult : Type :=
| Found (idx : Z) (targetShot : Shot)
| Exhausted
| Undefined
| OutOfFuel.

(** The [while] loop of [skipToScene], started at [idx]; each unit of fuel
    pays for one evaluation of the loop condition. *)
Fixpoint sceneScan (fuel : nat) (results : list Shot) (offset idx : Z) : ScanResult :=
  match fuel with
  | O => OutOfFuel
  | S fuel' =>
      if (0 <=? idx)%Z && (idx <? JS.len results)%Z then
        match JS.get results idx with
        | None => Undefined
        | Some shot =>
            if is_scene_break shot then Found idx shot
            else sceneScan fuel' results offset
                           (idx + (if (0 <? offset)%Z then 1 else -1))%Z
        end
      else Exhausted
  end.

(** [skipToScene(offset)]; [None] only if the loop ran out of fuel, which
    [skipToScene_returns] excludes. *)
Definition skipToScene (offset : Z) (w : Page) : option (JS.completion Page) :=
  let results := Store.inferenceResults (store w) in
  match videoPlayer w with
  | None => Some (JS.Normal w)
  | Some v =>
      if (JS.len results =? 0)%Z then Some (JS.Normal w)
      else
        match sceneScan (S (length results)) results offset
                        (Store.currentShotIndex (store w) + offset)%Z with
        | Found _ targetShot => Some (JS.Normal (jump v targetShot w))
        | Exhausted => Some (JS.Normal w)
        | Undefined => Some (JS.Throws w)
        | OutOfFuel => None
        end
  end.

(** [seekToShot(shot)]. *)
Definition seekToShot (shot : Shot) (w : Page) : Page :=
  match videoPlayer w with
  | None => w
  | Some v => jump v shot w
  end.

(** [clamp(x, lo, hi)] as the specification writes it. *)
Definition clamp (x lo hi : Z) : Z :=
  if (x <? lo)%Z then lo else if (hi <? x)%Z then hi else x.

(** Shots that are non-empty intervals, in order and without overlap. *)
Fixpoint separated (shots : list Shot) : Prop :=
  match shots with
  | [] => True
  | s :: rest =>
      (start_time s < end_time s)%Q
      /\ Forall (fun s' => (end_time s <= start_time s')%Q) rest
      /\ separated rest
  end.

End Player.

(** ** Loading a session (session_manager.js, inference_manager.js) *)

Module Session.

Import Player.

(** What [fetchSessionData] returns, as far as the loaders read it. *)
Record SessionData : Type := mkData {
  shots : list Shot;
  video_filename : string
}.

Definition set_grid (g : list Timeline.SceneBlock) (w : Page) : Page :=
  mkPage (store w) (video_el w) (overlay_el w) (bound w) g (highlighted w).

(** [SessionManager.hydrateSession], once the session data has arrived.
    (The HUD update and the switch of view touch no navigation state.) *)
Definition hydrateSession (sessionId : string) (data : SessionData) (w : Page) : Page :=
  let w1 := set_store (Store.set_session sessionId (shots data) (store w)) w in
  let w2 := initPlayer (Some ("/playground/" ++ sessionId ++ "/"
                              ++ video_filename data)%string) w1 in
  let w3 := syncPlayer w2 in
  set_grid (Timeline.renderTimeline (Store.inferenceResults (store w3))) w3.

(** [InferenceManager.finalizeInference], once the session data has
    arrived; the player is given [store.videoUrl]. *)
Definition finalizeInference (sessionId : string) (data : SessionData) (w : Page) : Page :=
  let w1 := set_store (Store.set_session sessionId (shots data) (store w)) w in
  let w2 := set_grid (Timeline.renderTimeline (Store.inferenceResults (store w1))) w1 in
  let w3 := initPlayer (Store.videoUrl (store w2)) w2 in
  syncPlayer w3.

(** The reset button of playground_bootstrap.js: [store.reset()]. *)
Definition resetPlayground (w : Page) : Page :=
  set_store (Store.reset (store w)) w.

(** The operations that act on the store and the cursor. *)
Inductive Op : Type :=
| Reset
| Hydrate (sessionId : string) (data : SessionData)
| Finalize (sessionId : string) (data : SessionData)
| TimeSync (t : Q)
| SkipShot (offset : Z)
| SkipScene (offset : Z)
| Seek (shot : Shot).

(** The page an event handler leaves behind, however it completes. *)
Definition settle (r : JS.completion Page) : Page :=
  match r with
  | JS.Normal w' => w'
  | JS.Throws w' => w'
  end.

Definition exec (op : Op) (w : Page) : Page :=
  match op with
  | Reset => resetPlayground w
  | Hydrate sessionId data => hydrateSession sessionId data w
  | Finalize sessionId data => finalizeInference sessionId data w
  | TimeSync t => settle (playhead_reaches t w)
  | SkipShot offset => settle (skipToShot offset w)
  | SkipScene offset =>
      match skipToScene offset w with
      | Some r => settle r
      | None => w
      end
  | Seek shot => seekToShot shot w
  end.

Definition run (ops : list Op) (w : Page) : Page :=
  fold_left (fun w op => exec op w) ops w.

(** The cursor is [-1] or an index of the loaded shot sequence. *)
Definition cursor_in_range (w : Page) : Prop :=
  let c := Store.currentShotIndex (store w) in
  c = (-1)%Z \/ (0 <= c < JS.len (Store.inferenceResults (store w)))%Z.

(** Operations that replace the loaded shot sequence. *)
Definition is_load (op : Op) : bool :=
  match op with
  | Hydrate _ _ | Finalize _ _ => true
  | _ => false
  end.

End Session.

(** ** The console (view.js, console part) *)

Module Console.

Local Open Scope string_scope.

(** The double quote of the HTML attributes. *)
Definition dquote : string := String (ascii_of_nat 34) EmptyString.

Definition is_digit (c : ascii) : bool :=
  let n := nat_of_ascii c in (48 <=? n)%nat && (n <=? 57)%nat.

(** The pattern [\[(\d{2}:\d{2}:\d{2})\]] and its replacement. *)
Definition timestamp_match (s : string) : option (nat * string) :=
  match s with
  | String "["%char (String d1 (String d2 (String ":"%char (String d3 (String d4
      (String ":"%char (String d5 (String d6 (String "]"%char _))))))))) =>
      if is_digit d1 && is_digit d2 && is_digit d3 && is_digit d4
         && is_digit d5 && is_digit d6
      then Some (10%nat, "<span class=" ++ dquote ++ "ts" ++ dquote ++ ">"
                          ++ substring 0 10 s ++ "</span>")
      else None
  | _ => None
  end.

Definition levelColors : list (string * string) :=
  [ ("CLIENT", "var(--accent)");
    ("PIPELINE", "#818cf8");
    ("SHOT_DETECT", "#10b981");
    ("PROMPT", "#fbbf24");
    ("VLM", "#a78bfa");
    ("TOKEN", "#22d3ee");
    ("ERROR", "var(--break-border)") ].

Definition level_match (entry : string * string) : string -> option (nat * string) :=
  let (level, color) := entry in
  JS.literal ("[" ++ level ++ "]")
             ("<span style=" ++ dquote ++ "color:" ++ color ++ "; font-weight:900;"
              ++ dquote ++ ">[" ++ level ++ "]</span>").

Definition glyph_match (glyph style : string) : string -> option (nat * string) :=
  JS.literal glyph ("<span style=" ++ dquote ++ style ++ dquote ++ ">" ++ glyph ++ "</span>").

(** Step 1 of [renderStyledLine]: the styled markup of a raw line. *)
Definition style (rawLine : string) : string :=
  let styled := JS.replaceAll timestamp_match rawLine in
  let styled := fold_left (fun acc entry => JS.replaceAll (level_match entry) acc)
                          levelColors styled in
  let styled := JS.replaceAll (glyph_match "→" "color:var(--accent); font-weight:bold;") styled in
  let styled := JS.replaceAll (glyph_match "✓" "color:var(--success); font-weight:bold;") styled in
  JS.replaceAll (glyph_match "🎬" "filter: drop-shadow(0 0 2px var(--accent))") styled.

(** A rendered line: a [div.log-line] with its markup and its colour. *)
Record LogLine : Type := mkLine {
  innerHTML : string;
  style_color : option string
}.

(** What a call of [renderStyledLine] does to the console: it appends a
    line or replaces the last one.  Both carry the raw line rendered and
    its markup. *)
Inductive RenderEvent : Type :=
| Appended (rawLine styled : string)
| Replaced (rawLine styled : string).

Definition event_line (e : RenderEvent) : string :=
  match e with
  | Appended rawLine _ => rawLine
  | Replaced rawLine _ => rawLine
  end.

Definition is_append (e : RenderEvent) : bool :=
  match e with
  | Appended _ _ => true
  | Replaced _ _ => false
  end.

(** The two signatures of lines that are updated in place. *)
Definition token_signature (text : string) : bool :=
  JS.includes text "[TOKEN]" && JS.includes text "Thinking...".

Definition shot_signature (text : string) : bool :=
  JS.includes text "[SHOT_DETECT]" && JS.includes text "Boundary detection at frame".

(** [container.lastElementChild]. *)
Definition lastElementChild (container : list LogLine) : option LogLine :=
  last (map Some container) None.

(** [lastLine.innerHTML = styled] on the last child. *)
Definition set_last_innerHTML (container : list LogLine) (styled : string) : list LogLine :=
  match lastElementChild container with
  | None => container
  | Some lastLine =>
      (removelast container ++ [mkLine styled (style_color lastLine)])%list
  end.

(** The colour given to an appended line. *)
Definition line_color (styled : string) (forceSuccess forceError : bool) : option string :=
  let c := if forceSuccess || JS.includes styled "COMPLETE"
              || JS.includes styled "Inference Complete" || JS.includes styled "✓"
           then Some "var(--success)" else None in
  if forceError || JS.includes styled "[ERROR]" || JS.includes styled "FAILURE"
  then Some "var(--break-border)" else c.

(** The replaceable categories of the specification, and the lines that
    carry them. *)
Inductive Category : Type := TokenStream | BoundaryScan.

Definition carries (c : Category) (text : string) : bool :=
  match c with
  | TokenStream => token_signature text
  | BoundaryScan => shot_signature text
  end.

Section DOM.

(** The text content the browser derives from the markup of an element. *)
Variable html_text : string -> string.

Definition textContent (l : LogLine) : string := html_text (innerHTML l).

(** [renderStyledLine(container, rawLine, forceSuccess, forceError)]. *)
Definition renderStyledLine (container : list LogLine) (rawLine : string)
           (forceSuccess forceError : bool) : list LogLine * RenderEvent :=
  let styled := style rawLine in
  let isTokenUpdate := token_signature rawLine in
  let isShotUpdate := shot_signature rawLine in
  let append :=
    ((container ++ [mkLine styled (line_color styled forceSuccess forceError)])%list,
     Appended rawLine styled) in
  let replace := (set_last_innerHTML container styled, Replaced rawLine styled) in
  if isTokenUpdate || isShotUpdate then
    match lastElementChild container with
    | Some lastLine =>
        let lastText := textContent lastLine in
        if isTokenUpdate && JS.includes lastText "[TOKEN]"
           && JS.includes lastText "Thinking..." then replace
        else if isShotUpdate && JS.includes lastText "[SHOT_DETECT]"
                && JS.includes lastText "Boundary detection at frame" then replace
        else append
    | None => append
    end
  else append.

(** [newLines.forEach(line => renderStyledLine(consoleEl, line))]. *)
Fixpoint renderLines (container : list LogLine) (newLines : list string)
  : list LogLine * list RenderEvent :=
  match newLines with
  | [] => (container, [])
  | line :: rest =>
      let (container1, ev) := renderStyledLine container line false false in
      let (container2, evs) := renderLines container1 rest in
      (container2, ev :: evs)
  end.

(** The console: the module variable [lastRenderedLogCount] and the
    children of the [#consoleLog] element ([None] when the page has no such
    element). *)
Record t : Type := mk {
  lastRenderedLogCount : nat;
  consoleLog : option (list LogLine)
}.

Definition clearConsole (c : t) : t :=
  mk 0 (match consoleLog c with
        | Some _ => Some []
        | None => None
        end).

(** The argument of [logConsole]: an array of lines or a single text. *)
Inductive Content : Type :=
| Snapshot (content : list string)
| Text (content : string).

Definition levelTags : list string :=
  ["CLIENT"; "PIPELINE"; "SHOT_DETECT"; "VLM"; "TOKEN"; "PROMPT"; "ERROR"].

Definition hasLevelTag (content : string) : bool :=
  existsb (fun tag => JS.includes content ("[" ++ tag ++ "]")) levelTags.

(** The line built from a single text and the time of day. *)
Definition finalLine (timestamp content : string) : string :=
  if hasLevelTag content then "[" ++ timestamp ++ "] " ++ content
  else "[" ++ timestamp ++ "] [CLIENT] " ++ content.

(** [logConsole(content, isSuccess, isError)] at the time of day
    [timestamp]; the result pairs the console with the render events of the
    call, in order. *)
Definition logConsole (timestamp : string) (content : Content)
           (isSuccess isError : bool) (c : t) : t * list RenderEvent :=
  match consoleLog c with
  | None => (c, [])
  | Some consoleEl =>
      match content with
      | Snapshot content =>
          let newLines := skipn (lastRenderedLogCount c) content in
          if (List.length newLines =? 0)%nat then (c, [])
          else
            let (consoleEl', evs) := renderLines consoleEl newLines in
            (mk (List.length content) (Some consoleEl'), evs)
      | Text content =>
          let (consoleEl', ev) :=
            renderStyledLine consoleEl (finalLine timestamp content) isSuccess isError in
          (mk (lastRenderedLogCount c) (Some consoleEl'), [ev])
      end
  end.

(** The decision of [renderStyledLine] between replacing and appending,
    as one boolean. *)
Definition replaces (container : list LogLine) (rawLine : string) : bool :=
  match lastElementChild container with
  | Some lastLine =>
      (token_signature rawLine && token_signature (textContent lastLine))
      || (shot_signature rawLine && shot_signature (textContent lastLine))
  | None => false
  end.

(** The condition of the specification for an update in place: the new
    line carries a replaceable category and the most recently rendered
    line carries the same one, both judged on their text. *)
Definition same_replaceable_category (container : list LogLine) (rawLine : string) : Prop :=
  exists (c : Category) (lastLine : LogLine),
    carries c rawLine = true
    /\ lastElementChild container = Some lastLine
    /\ carries c (textContent lastLine) = true.

End DOM.

(** A rendering of markup into text that drops the tags; it is the text
    content for log lines whose own text has no markup or entities. *)
Fixpoint strip_tags_go (inTag : bool) (s : string) : string :=
  match s with
  | EmptyString => EmptyString
  | String c s' =>
      if inTag then strip_tags_go (negb (Ascii.eqb c ">"%char)) s'
      else if Ascii.eqb c "<"%char then strip_tags_go true s'
      else String c (strip_tags_go false s')
  end.

Definition strip_tags (s : string) : string := strip_tags_go false s.

End Console.

(** ** The inference manager: submission, polling, abort (inference_manager.js) *)

Module Poller.

Local Open Scope string_scope.

Definition POLLING_INTERVAL : Z := 1500%Z.

Record JobResult : Type := mkResult {
  session_id : string
}.

(** A poll response; every field may be missing. *)
Record Status : Type := mkStatus {
  logs : option (list string);
  status : option string;
  step : option Z;
  total : option Z;
  state : option string;
  result : option JobResult
}.

(** How a call of [api.pollTaskStatus] ends: with a response, or with a
    rejection (network or parse error). *)
Inductive PollOutcome : Type :=
| PollReturns (response : Status)
| PollFails.

(** What the manager does to its collaborators: the calls of the service
    layer, of the console and progress bar, and of the timer. *)
Inductive Effect : Type :=
| TriggerInferenceApi
| PollTaskStatus (taskId : string)
| AbortTaskApi (taskId : string)
| LogConsole (content : Console.Content) (isSuccess isError : bool)
| UpdateProgressBar (pct : Q)
| ClearInterval
| FinalizeInference (sessionId : string)
| ConsoleWarn.

(** Truthiness of an optional number and of an optional string. *)
Definition truthy_number (x : option Z) : bool :=
  match x with
  | Some n => negb (n =? 0)%Z
  | None => false
  end.

Definition truthy_string (x : option string) : bool :=
  match x with
  | Some s => negb (String.eqb s EmptyString)
  | None => false
  end.

(** An optional string inside a template literal. *)
Definition interpolate (x : option string) : string :=
  match x with
  | Some s => s
  | None => "undefined"
  end.

Definition state_is (s : Status) (name : string) : bool :=
  match state s with
  | Some st => String.eqb st name
  | None => false
  end.

(** Feeding [logs] or [status] to the console. *)
Definition log_part (s : Status) : list Effect :=
  match logs s with
  | Some (line :: rest) => [LogConsole (Console.Snapshot (line :: rest)) false false]
  | _ =>
      match status s with
      | Some text =>
          if truthy_string (status s) then [LogConsole (Console.Text text) false false]
          else []
      | None => []
      end
  end.

(** The percentage [(step / total) * 100], kept in lowest terms. *)
Definition percent (step total : Z) : Q :=
  Qred ((inject_Z step / inject_Z total) * 100).

(** The progress update of a tick. *)
Definition progress_part (s : Status) : list Effect :=
  match step s, total s with
  | Some a, Some b =>
      if truthy_number (step s) && truthy_number (total s)
      then [UpdateProgressBar (percent a b)]
      else []
  | _, _ => []
  end.

(** The text logged when the job reports FAILURE. *)
Definition stopped_text (s : Status) : string :=
  "[STOPPED] " ++ interpolate (status s).

(** The handling of the terminal states.  On SUCCESS the read of
    [status.result.session_id] throws when [result] is missing; the
    [catch] of the tick then warns. *)
Definition terminal_part (s : Status) : list Effect :=
  if state_is s "SUCCESS" then
    ClearInterval ::
      match result s with
      | Some r => [FinalizeInference (session_id r)]
      | None => [ConsoleWarn]
      end
  else if state_is s "FAILURE" then
    [ClearInterval; LogConsole (Console.Text (stopped_text s)) false true]
  else [].

(** One run of the interval callback of [pollStatus(taskId, _)]. *)
Definition tick (taskId : string) (o : PollOutcome) : list Effect :=
  PollTaskStatus taskId ::
    match o with
    | PollReturns s => log_part s ++ progress_part s ++ terminal_part s
    | PollFails => [ConsoleWarn]
    end.

Definition is_clear (e : Effect) : bool :=
  match e with
  | ClearInterval => true
  | _ => false
  end.



(** The manager: the task that can be aborted, the running interval (the
    task it polls and the time its next tick is due; [None] when no
    interval runs), and the effects so far, oldest first. *)
Record t : Type := mk {
  currentTaskId : option string;
  interval : option (string * Z);
  trace : list Effect
}.

Definition idle : t := mk None None [].

Definition emit (effects : list Effect) (p : t) : t :=
  mk (currentTaskId p) (interval p) (trace p ++ effects).

(** [pollStatus(taskId, _)] at time [now]: [setInterval]. *)
Definition pollStatus (taskId : string) (now : Z) (p : t) : t :=
  mk (currentTaskId p) (Some (taskId, now + POLLING_INTERVAL)%Z) (trace p).

(** [startInference()] at time [now]: [hasVideo] says whether a video is
    attached, [modes] lists the active modes, and [submission] is the task
    identifier returned by the service or the message of its error.  (The
    switch of view and the contents of the form data are left out.) *)
Definition startInference (hasVideo : bool) (modes : list string)
           (submission : string + string) (now : Z) (p : t) : t :=
  if negb hasVideo then p
  else
    let p1 := mk None (interval p) (trace p) in
    let announce :=
      match modes with
      | [] => LogConsole (Console.Text "Dispatching multimodal payload...") false false
      | _ => LogConsole (Console.Text ("⚠️ ACTIVE MODES: " ++ String.concat ", " modes))
                        false true
      end in
    let p2 := emit [UpdateProgressBar 0; announce; TriggerInferenceApi] p1 in
    match submission with
    | inl taskId => pollStatus taskId now (mk (Some taskId) (interval p2) (trace p2))
    | inr message => emit [LogConsole (Console.Text ("[FATAL] " ++ message)) false true] p2
    end.

(** [handleAbort()]; [failure] is the message of the error of the abort
    request, if it fails. *)
Definition handleAbort (failure : option string) (p : t) : t :=
  match currentTaskId p with
  | None => p
  | Some taskId =>
      let p1 := emit [LogConsole (Console.Text "⚠️ Sending abort signal to backend...")
                                 false true;
                      AbortTaskApi taskId] p in
      match failure with
      | None => p1
      | Some message =>
          emit [LogConsole (Console.Text ("[ERROR] Failed to send abort signal: " ++ message))
                           false true] p1
      end
  end.

(** What happens to the manager while it polls. *)
Inductive Event : Type :=
| TimerFires (o : PollOutcome)
| AbortClicked (failure : option string).

(** A timer that has been cleared does not fire; a running one runs the
    callback and, unless the callback cleared it, is due again one
    polling interval later. *)
Definition handle (e : Event) (p : t) : t :=
  match e with
  | TimerFires o =>
      match interval p with
      | None => p
      | Some (taskId, due) =>
          let effects := tick taskId o in
          mk (currentTaskId p)
             (if existsb is_clear effects then None
              else Some (taskId, due + POLLING_INTERVAL)%Z)
             (trace p ++ effects)
      end
  | AbortClicked failure => handleAbort failure p
  end.

Definition run (events : list Event) (p : t) : t :=
  fold_left (fun p e => handle e p) events p.








End Poller.

(** ** Sample data *)

Module Samples.

Local Open Scope string_scope.

Definition sample_shot (id : string) (a b : Z) (brk : bool) : Shot :=
  mkShot id (inject_Z a) (inject_Z b) brk.

(** Seven shots with boundaries at indices 2 and 5 (and a flag on shot 0,
    which does not count). *)
Definition seven_shots : list Shot :=
  [ sample_shot "s0" 0 1 true; sample_shot "s1" 1 2 false;
    sample_shot "s2" 2 3 true; sample_shot "s3" 3 4 false;
    sample_shot "s4" 4 5 false; sample_shot "s5" 5 6 true;
    sample_shot "s6" 6 7 false ].

(** The two shots [(0,0,5)] and [(5,5,9)]: identifier, start, end. *)
Definition two_shots : list Shot :=
  [ sample_shot "0" 0 5 true; sample_shot "5" 5 9 false ].

(** A console showing one token-streaming line. *)
Definition streaming_console : Console.t :=
  Console.mk 1 (Some [Console.mkLine (Console.style "[12:00:01] [TOKEN] Thinking... a") None]).

Definition streaming_snapshot : list string :=
  [ "[12:00:01] [TOKEN] Thinking... a";
    "[12:00:02] [TOKEN] Thinking... ab";
    "[12:00:03] [VLM] done" ].

(** Five shots of two seconds each. *)
Definition five_shots : list Shot :=
  [ sample_shot "a" 0 2 true; sample_shot "b" 2 4 false;
    sample_shot "c" 4 6 true; sample_shot "d" 6 8 false;
    sample_shot "e" 8 10 false ].

(** A results view on [shots] with the cursor at [cursor]: the player is
    bound, its handler attached, and the playhead at 0. *)
Definition viewer (shots : list Shot) (cursor : Z) (paused : bool) : Player.Page :=
  Player.mkPage (Store.mk None (Some "s1") shots cursor)
                (Some (Player.mkVideo (Some "/playground/s1/v.mp4") 0 paused true))
                None true [] [].

(** A page that has a video element and nothing loaded yet. *)
Definition fresh_page : Player.Page :=
  Player.mkPage Store.initial (Some (Player.mkVideo None 0 true false)) None false [] [].

Definition session_a : Session.SessionData :=
  Session.mkData (firstn 3 five_shots) "a.mp4".

Definition session_b : Session.SessionData :=
  Session.mkData (firstn 1 five_shots) "b.mp4".



Definition failed_status : Poller.Status :=
  Poller.mkStatus None (Some "boom") None None (Some "FAILURE") None.

Definition success_status : Poller.Status :=
  Poller.mkStatus None None None None (Some "SUCCESS") (Some (Poller.mkResult "s1")).

(** The manager right after the submission of task [t1] at time 0. *)
Definition polling : Poller.t :=
  Poller.startInference true [] (inl "t1") 0%Z Poller.idle.


(** An empty console. *)
Definition empty_console : Console.t := Console.mk 0 (Some []).

End Samples.

(** ** Further notions used by the properties of the whole code *)

Module Scenes.

(** Number of boundary flags in a run of shots. *)
Definition count_breaks (shots : list Shot) : nat :=
  length (filter is_scene_break shots).

(** A scene whose shots after the first carry no boundary flag. *)
Definition quiet_after_first (scene : list Shot) : Prop :=
  match scene with
  | [] => False
  | _ :: later => Forall (fun s => is_scene_break s = false) later
  end.

(** A scene whose first shot carries the boundary flag. *)
Definition opened_by_break (scene : list Shot) : Prop :=
  match scene with
  | [] => False
  | first :: _ => is_scene_break first = true
  end.

(** The direction in which [skipToScene] walks: [offset > 0 ? 1 : -1]. *)
Definition direction (offset : Z) : Z := if (0 <? offset)%Z then 1%Z else (-1)%Z.

(** The [i]-th index the loop of [skipToScene] looks at. *)
Definition scanned (w : Player.Page) (offset : Z) (i : nat) : Z :=
  (Store.currentShotIndex (Player.store w) + offset + direction offset * Z.of_nat i)%Z.

(** The grid shows the scenes of the shots in the store. *)
Definition grid_matches_store (w : Player.Page) : Prop :=
  Player.shotGrid w = Timeline.renderTimeline (Store.inferenceResults (Player.store w)).

Definition is_reset (op : Session.Op) : bool :=
  match op with
  | Session.Reset => true
  | _ => false
  end.

End Scenes.

(** ** The view facade and the debug panel (view.js, ui/panels.js,
    ui/inspector.js) *)

Module View.

(** The three application states [toggleViewState] is called with. *)
Inductive ViewState : Type := config | processing | results.

(** What the inspector panel shows. *)
Inductive InspectorContent : Type :=
| Placeholder
| Info (html : string).

(** The part of the page the facade acts on.  An element is [None] when
    the page lacks it; for a view, the debug panel and its button the
    boolean says whether the element carries its marker class ([active],
    [active], [btn-primary]). *)
Record UI : Type := mkUI {
  configView : option bool;
  processingView : option bool;
  resultsView : option bool;
  debugPanel : option bool;
  debugBtn : option bool;
  console : Console.t;
  inspector : option InspectorContent
}.

(** [el.classList.remove(c)] and [el.classList.add(c)] on an element that
    may be missing. *)
Definition remove_class (el : option bool) : option bool := option_map (fun _ => false) el.
Definition add_class (el : option bool) : option bool := option_map (fun _ => true) el.

(** [hideDebugPanel()]. *)
Definition hideDebugPanel (ui : UI) : UI :=
  mkUI (configView ui) (processingView ui) (resultsView ui)
       (remove_class (debugPanel ui)) (remove_class (debugBtn ui))
       (console ui) (inspector ui).

(** [toggleDebugPanel()]: the new page and the returned flag. *)
Definition toggleDebugPanel (ui : UI) : UI * bool :=
  match debugPanel ui with
  | None => (ui, false)
  | Some active =>
      let isActive := negb active in
      (mkUI (configView ui) (processingView ui) (resultsView ui)
            (Some isActive) (option_map (fun _ => isActive) (debugBtn ui))
            (console ui) (inspector ui),
       isActive)
  end.

(** [resetInspector()]. *)
Definition resetInspector (ui : UI) : UI :=
  mkUI (configView ui) (processingView ui) (resultsView ui)
       (debugPanel ui) (debugBtn ui) (console ui)
       (option_map (fun _ => Placeholder) (inspector ui)).

Definition set_console (c : Console.t) (ui : UI) : UI :=
  mkUI (configView ui) (processingView ui) (resultsView ui)
       (debugPanel ui) (debugBtn ui) c (inspector ui).

(** [toggleViewState(state)]. *)
Definition toggleViewState (state : ViewState) (ui : UI) : UI :=
  let ui1 := mkUI (remove_class (configView ui)) (remove_class (processingView ui))
                  (remove_class (resultsView ui))
                  (debugPanel ui) (debugBtn ui) (console ui) (inspector ui) in
  let ui2 :=
    match state with
    | config =>
        mkUI (add_class (configView ui1)) (processingView ui1) (resultsView ui1)
             (debugPanel ui1) (debugBtn ui1) (console ui1) (inspector ui1)
    | processing =>
        mkUI (configView ui1) (add_class (processingView ui1)) (resultsView ui1)
             (debugPanel ui1) (debugBtn ui1) (console ui1) (inspector ui1)
    | results =>
        mkUI (configView ui1) (processingView ui1) (add_class (resultsView ui1))
             (debugPanel ui1) (debugBtn ui1) (console ui1) (inspector ui1)
    end in
  let ui3 := match state with
             | results => ui2
             | _ => hideDebugPanel ui2
             end in
  match state with
  | config => resetInspector (set_console (Console.clearConsole (console ui3)) ui3)
  | _ => ui3
  end.

(** The view element of a state. *)
Definition view_of (state : ViewState) (ui : UI) : option bool :=
  match state with
  | config => configView ui
  | processing => processingView ui
  | results => resultsView ui
  end.

(** What the user may do to the debug panel and the views. *)
Inductive Action : Type :=
| Toggle
| Hide
| SwitchTo (state : ViewState).

Definition act (a : Action) (ui : UI) : UI :=
  match a with
  | Toggle => fst (toggleDebugPanel ui)
  | Hide => hideDebugPanel ui
  | SwitchTo state => toggleViewState state ui
  end.

(** The button is highlighted exactly when the panel is open. *)
Definition button_follows_panel (ui : UI) : Prop :=
  match debugPanel ui, debugBtn ui with
  | Some active, Some primary => primary = active
  | _, _ => True
  end.

End View.

(** ** Counting render events *)

Module Events.

Definition count_appends (events : list Console.RenderEvent) : nat :=
  length (filter Console.is_append events).

(** Feeding the console the [logs] arrays of successive polls; the result
    pairs the console with all render events, in order. *)
Fixpoint feed (html_text : string -> string) (timestamp : string)
         (snapshots : list (list string)) (c : Console.t)
  : Console.t * list Console.RenderEvent :=
  match snapshots with
  | [] => (c, [])
  | content :: rest =>
      let (c1, events1) :=
        Console.logConsole html_text timestamp (Console.Snapshot content) false false c in
      let (c2, events2) := feed html_text timestamp rest c1 in
      (c2, events1 ++ events2)
  end.

(** Each array extends the one before it, the first one extending [previous]. *)
Fixpoint growing (previous : list string) (snapshots : list (list string)) : Prop :=
  match snapshots with
  | [] => True
  | content :: rest =>
      (exists more, content = previous ++ more) /\ growing content rest
  end.

End Events.

(** ** Reading the effects of the inference manager *)

Module Effects.

Import Poller.

Definition is_abort (e : Effect) : bool :=
  match e with
  | AbortTaskApi _ => true
  | _ => false
  end.

Definition is_finalize (e : Effect) : bool :=
  match e with
  | FinalizeInference _ => true
  | _ => false
  end.

(** The calls of [ui.logConsole] among the effects, in order. *)
Definition console_calls (effects : list Effect) : list (Console.Content * bool * bool) :=
  flat_map (fun e => match e with
                     | LogConsole content isSuccess isError =>
                         [(content, isSuccess, isError)]
                     | _ => []
                     end) effects.

(** The announcement [startInference] logs before it submits. *)
Definition announcement (modes : list string) : Effect :=
  match modes with
  | [] => LogConsole (Console.Text "Dispatching multimodal payload...") false false
  | _ => LogConsole (Console.Text ("⚠️ ACTIVE MODES: " ++ String.concat ", " modes)%string)
                    false true
  end.

End Effects.

(** ** The hardware monitoring deck (monitoring_deck.js) *)

Module Monitor.

(** The deck and the timers of the browser: [isPolling] and [timer] are
    the fields of the object ([timer] is [None] until the first start);
    [running] lists the identifiers of the intervals that are set;
    [next_id] is the identifier the next [setInterval] returns (identifiers
    are positive); [polls] counts the calls of [poll()]. *)
Record Deck : Type := mk {
  isPolling : bool;
  timer : option nat;
  running : list nat;
  next_id : nat;
  polls : nat
}.

Definition pollInterval : Z := 2000%Z.

(** The deck after its constructor, in a browser whose next timer
    identifier is [first_id]. *)
Definition fresh (first_id : nat) : Deck := mk false None [] first_id 0.

(** [start()]. *)
Definition start (d : Deck) : Deck :=
  if isPolling d then d
  else mk true (Some (next_id d)) (next_id d :: running d) (S (next_id d))
          (S (polls d)).

(** [clearInterval(id)]. *)
Definition clearInterval (id : nat) (ids : list nat) : list nat :=
  filter (fun i => negb (i =? id)%nat) ids.

(** [stop()]; the timer identifier is truthy when it is not 0. *)
Definition stop (d : Deck) : Deck :=
  match timer d with
  | Some (S id) => mk false (timer d) (clearInterval (S id) (running d))
                      (next_id d) (polls d)
  | _ => mk false (timer d) (running d) (next_id d) (polls d)
  end.

(** The browser fires the interval [id], if it is still set. *)
Definition fire (id : nat) (d : Deck) : Deck :=
  if existsb (fun i => (i =? id)%nat) (running d)
  then mk (isPolling d) (timer d) (running d) (next_id d) (S (polls d))
  else d.

Inductive Call : Type :=
| Start
| Stop
| Fire (id : nat).

Definition call (c : Call) (d : Deck) : Deck :=
  match c with
  | Start => start d
  | Stop => stop d
  | Fire id => fire id d
  end.

Definition calls (cs : list Call) (d : Deck) : Deck :=
  fold_left (fun d c => call c d) cs d.

(** The intervals set are exactly the one of the deck while it polls. *)
Definition one_interval (d : Deck) : Prop :=
  (0 < next_id d)%nat
  /\ match timer d with
     | Some id => (0 < id < next_id d)%nat
     | None => isPolling d = false
     end
  /\ running d = if isPolling d
                 then match timer d with
                      | Some id => [id]
                      | None => []
                      end
                 else [].

End Monitor.

(** ** The HTTP client (lib/api_client.js) *)

Module Http.

Local Open Scope string_scope.

(** A headers object: its keys with their values. *)
Definition Headers : Type := list (string * string).

Fixpoint lookup (key : string) (h : Headers) : option string :=
  match h with
  | [] => None
  | (k, v) :: rest => if String.eqb k key then Some v else lookup key rest
  end.

(** [h[key] = value]. *)
Fixpoint set (key value : string) (h : Headers) : Headers :=
  match h with
  | [] => [(key, value)]
  | (k, v) :: rest =>
      if String.eqb k key then (k, value) :: rest else (k, v) :: set key value rest
  end.

(** [{...base, ...extra}]. *)
Definition spread (base extra : Headers) : Headers :=
  fold_left (fun acc kv => set (fst kv) (snd kv) acc) extra base.

(** [delete h[key]]. *)
Definition delete (key : string) (h : Headers) : Headers :=
  filter (fun kv => negb (String.eqb (fst kv) key)) h.

(** A request body: none, a [FormData] object, or a text. *)
Inductive Body : Type :=
| NoBody
| FormData (parts : list (string * string))
| TextBody (text : string).

(** The options of a request; [headers] is [None] when the caller gives
    none. *)
Record Options : Type := mkOptions {
  method : option string;
  headers : option Headers;
  body : Body
}.

(** The configuration handed to [fetch]. *)
Record Config : Type := mkConfig {
  config_method : option string;
  config_headers : Headers;
  config_body : Body
}.

Definition defaultHeaders : Headers :=
  [("Content-Type", "application/json"); ("Accept", "application/json")].

Definition is_form_data (b : Body) : bool :=
  match b with
  | FormData _ => true
  | _ => false
  end.

(** The configuration [request] builds from its options. *)
Definition config_of (options : Options) : Config :=
  let merged := spread defaultHeaders (match headers options with
                                       | Some h => h
                                       | None => []
                                       end) in
  mkConfig (method options)
           (if is_form_data (body options) then delete "Content-Type" merged else merged)
           (body options).

(** What a caller gives [post] to send: a [FormData] object, or a value,
    given by the text [JSON.stringify] makes of it ([None] for
    [undefined]). *)
Inductive Payload : Type :=
| FormPayload (parts : list (string * string))
| JsonPayload (stringified : option string).

Definition text_body (stringified : option string) : Body :=
  match stringified with
  | Some text => TextBody text
  | None => NoBody
  end.

(** The options [post] passes to [request]. *)
Definition post_options (payload : Payload) (h : Headers) : Options :=
  mkOptions (Some "POST") (Some h)
            (match payload with
             | FormPayload parts => FormData parts
             | JsonPayload stringified => text_body stringified
             end).

(** The value of the last entry for [key] in the headers a caller gives. *)
Definition given (key : string) (h : Headers) : option string := lookup key (rev h).

End Http.

(** * Properties *)

(** ** Scene grouping *)

Module TimelineFacts.

Import Timeline Samples.

Lemma injectSceneBlock_nonempty container shots index :
  shots <> [] ->
  map scene_shots (injectSceneBlock container shots index)
  = map scene_shots container ++ [shots].
Proof.
  destruct shots as [|head rest]; [congruence|].
  intros _. unfold injectSceneBlock. now rewrite map_app.
Qed.

(** After shot 0 the walk of [renderTimeline] follows [scan_spec]. *)
Lemma forEach_scan rest :
  forall idx st,
    sceneBuffer st <> [] ->
    map scene_shots (flush (forEach_from (S idx) rest st))
    = map scene_shots (gridContainer st) ++ scan_spec (sceneBuffer st) rest.
Proof.
  induction rest as [|shot rest IH]; intros idx st Hbuf.
  - simpl. unfold flush.
    destruct (sceneBuffer st) as [|b bs] eqn:E; [congruence|].
    simpl Nat.ltb. cbv iota. now apply injectSceneBlock_nonempty.
  - simpl forEach_from. rewrite IH.
    + unfold visit. simpl Nat.eqb. simpl negb. rewrite andb_true_r.
      simpl scan_spec. destruct (is_scene_break shot); simpl.
      * rewrite injectSceneBlock_nonempty by assumption.
        now rewrite <- app_assoc.
      * reflexivity.
    + unfold visit. destruct (is_scene_break shot && negb (S idx =? 0)%nat); simpl.
      * congruence.
      * destruct (sceneBuffer st); simpl; congruence.
Qed.

Lemma groupScenes_refines shots : groupScenes shots = groupScenes_spec shots.
Proof.
  destruct shots as [|shot0 rest]; [reflexivity|].
  unfold groupScenes, renderTimeline. simpl forEach_from.
  rewrite forEach_scan.
  - unfold visit. simpl. now rewrite andb_false_r.
  - unfold visit. simpl. rewrite andb_false_r. simpl. congruence.
Qed.

Lemma scan_spec_all_breaks rest :
  forall buffer,
    Forall (fun s => is_scene_break s = true) rest ->
    scan_spec buffer rest = buffer :: map (fun s => [s]) rest.
Proof.
  induction rest as [|s rest IH]; intros buffer H; [reflexivity|].
  inversion H as [|? ? Hs Hrest]; subst. simpl. rewrite Hs.
  now rewrite IH.
Qed.

Lemma scan_spec_no_break rest :
  forall buffer,
    Forall (fun s => is_scene_break s = false) rest ->
    scan_spec buffer rest = [buffer ++ rest].
Proof.
  induction rest as [|s rest IH]; intros buffer H.
  - simpl. now rewrite app_nil_r.
  - inversion H as [|? ? Hs Hrest]; subst. simpl. rewrite Hs.
    rewrite IH by assumption. now rewrite <- app_assoc.
Qed.

Lemma scan_spec_concat rest :
  forall buffer, concat (scan_spec buffer rest) = buffer ++ rest.
Proof.
  induction rest as [|s rest IH]; intros buffer; simpl.
  - now rewrite app_nil_r.
  - destruct (is_scene_break s); simpl.
    + now rewrite IH.
    + rewrite IH. now rewrite <- app_assoc.
Qed.

(** The scenes of shots whose flags are set exactly at 2 and 5. *)
Lemma groupScenes_spec_2_5 shots :
  (6 <= length shots)%nat ->
  breaks_at_2_and_5 shots ->
  exists s0 s1 s2 s3 s4 s5 rest,
    shots = s0 :: s1 :: s2 :: s3 :: s4 :: s5 :: rest
    /\ groupScenes_spec shots = [[s0; s1]; [s2; s3; s4]; s5 :: rest].
Proof.
  intros Hlen H.
  destruct shots as [|s0 [|s1 [|s2 [|s3 [|s4 [|s5 rest]]]]]]; simpl in Hlen; try lia.
  exists s0, s1, s2, s3, s4, s5, rest. split; [reflexivity|].
  assert (H1 := H 1%nat s1 eq_refl ltac:(lia)).
  assert (H2 := H 2%nat s2 eq_refl ltac:(lia)).
  assert (H3 := H 3%nat s3 eq_refl ltac:(lia)).
  assert (H4 := H 4%nat s4 eq_refl ltac:(lia)).
  assert (H5 := H 5%nat s5 eq_refl ltac:(lia)).
  simpl in H1, H2, H3, H4, H5.
  assert (Hrest : Forall (fun s => is_scene_break s = false) rest).
  { apply Forall_forall. intros s Hin.
    apply In_nth_error in Hin. destruct Hin as [k Hk].
    assert (Hs := H (6 + k)%nat s Hk ltac:(lia)).
    simpl in Hs. exact Hs. }
  simpl. rewrite H1, H2, H3, H4, H5. simpl.
  now rewrite scan_spec_no_break.
Qed.

(** C1.  Scene grouping.  The scenes rendered by [renderTimeline] are those
    of the scan the specification describes: shot 0 opens the first scene
    whatever its flag, every later shot closes the buffer and opens a new
    one when its flag is set and is appended otherwise, and the last buffer
    is flushed.  The scenes partition the shots in order.  Hence no shot
    gives no scene; shots that are all boundaries give one scene per shot;
    a non-empty sequence without boundary after shot 0 gives the single
    scene of all shots; and boundaries exactly at indices 2 and 5 of at
    least 6 shots give three scenes of sizes 2, 3 and N-5. *)
Theorem renderTimeline_groups_scenes (shots : list Shot) :
  groupScenes shots = groupScenes_spec shots
  /\ concat (groupScenes shots) = shots
  /\ (shots = [] -> groupScenes shots = [])
  /\ (Forall (fun s => is_scene_break s = true) shots ->
      groupScenes shots = map (fun s => [s]) shots)
  /\ (forall shot0 rest,
         shots = shot0 :: rest ->
         Forall (fun s => is_scene_break s = false) rest ->
         groupScenes shots = [shots])
  /\ ((6 <= length shots)%nat ->
      breaks_at_2_and_5 shots ->
      map (@length Shot) (groupScenes shots) = [2; 3; length shots - 5]%nat).
Proof.
  rewrite groupScenes_refines. repeat split.
  - destruct shots as [|shot0 rest]; [reflexivity|].
    simpl. apply scan_spec_concat.
  - now intros ->.
  - intros H. destruct shots as [|shot0 rest]; [reflexivity|].
    inversion H; subst. simpl. now apply scan_spec_all_breaks.
  - intros shot0 rest -> H. simpl. now rewrite scan_spec_no_break.
  - intros Hlen H.
    destruct (groupScenes_spec_2_5 shots Hlen H)
      as (s0 & s1 & s2 & s3 & s4 & s5 & rest & -> & ->).
    reflexivity.
Qed.

Lemma seven_shots_breaks : breaks_at_2_and_5 seven_shots.
Proof.
  intros i s Hi Hpos.
  do 7 (destruct i as [|i]; [simpl in Hi; try lia; now inversion Hi|]).
  destruct i; discriminate.
Qed.

Lemma renderTimeline_groups_scenes_witness :
  map (@length Shot) (groupScenes seven_shots) = [2; 3; 2]%nat.
Proof.
  apply (renderTimeline_groups_scenes seven_shots).
  - simpl. lia.
  - exact seven_shots_breaks.
Defined.

End TimelineFacts.

(** ** The playback position to active shot mapping *)

Module PlayheadFacts.

Import Player Samples.

Section FindIndex.

Context {A : Type} (p : A -> bool).

Lemma findIndex_from_range (arr : list A) :
  forall i, (0 <= i)%Z ->
    JS.findIndex_from p arr i = (-1)%Z
    \/ (i <= JS.findIndex_from p arr i < i + JS.len arr)%Z.
Proof.
  unfold JS.len.
  induction arr as [|x rest IH]; intros i Hi; simpl JS.findIndex_from.
  - now left.
  - destruct (p x).
    + right. simpl length. lia.
    + destruct (IH (i + 1)%Z ltac:(lia)) as [E|E]; [now left|].
      right. simpl length. lia.
Qed.

Lemma findIndex_from_none (arr : list A) :
  forall i, (0 <= i)%Z ->
    (JS.findIndex_from p arr i = (-1)%Z <-> forall x, In x arr -> p x = false).
Proof.
  induction arr as [|x rest IH]; intros i Hi; simpl JS.findIndex_from.
  - split; [intros _ x []|reflexivity].
  - destruct (p x) eqn:Px.
    + split; [lia|]. intros H. specialize (H x (or_introl eq_refl)). congruence.
    + rewrite IH by lia. split.
      * intros H y [<-|Hy]; auto.
      * intros H y Hy. apply H. now right.
Qed.

Lemma findIndex_from_found (arr : list A) :
  forall i r, (0 <= i)%Z ->
    JS.findIndex_from p arr i = r -> r <> (-1)%Z ->
    exists x,
      nth_error arr (Z.to_nat (r - i)) = Some x /\ p x = true
      /\ forall j y, (j < Z.to_nat (r - i))%nat -> nth_error arr j = Some y -> p y = false.
Proof.
  induction arr as [|x rest IH]; intros i r Hi Hr Hne; simpl in Hr.
  - congruence.
  - destruct (p x) eqn:Px.
    + subst r. replace (i - i)%Z with 0%Z by lia. exists x. simpl.
      repeat split; auto. intros j y Hj. lia.
    + destruct (findIndex_from_range rest (i + 1)%Z ltac:(lia)) as [E|E];
        [congruence|].
      destruct (IH (i + 1)%Z r ltac:(lia) Hr Hne) as (y & Hy & Py & Hlow).
      rewrite Hr in E.
      replace (Z.to_nat (r - i)) with (S (Z.to_nat (r - (i + 1)))) by lia.
      exists y. simpl. repeat split; auto.
      intros [|j] z Hj Hz; simpl in Hz.
      * congruence.
      * apply (Hlow j z); [lia|assumption].
Qed.

End FindIndex.

Lemma under_playhead_iff t s :
  under_playhead t s = true <-> (start_time s <= t /\ t < end_time s)%Q.
Proof.
  unfold under_playhead, JS.Qlt_bool.
  rewrite andb_true_iff, negb_true_iff, Qle_bool_iff.
  split; intros [H1 H2]; split; auto.
  - apply Qnot_le_lt. intros H. apply Qle_bool_iff in H. congruence.
  - apply not_true_is_false. intros H. apply Qle_bool_iff in H.
    now apply (Qlt_not_le _ _ H2).
Qed.

Lemma under_playhead_false t s :
  under_playhead t s = false <-> ~ (start_time s <= t /\ t < end_time s)%Q.
Proof.
  rewrite <- under_playhead_iff. destruct (under_playhead t s); split; congruence.
Qed.

(** C2.  Playback-position lookup.  For every shot sequence and every time
    [t], the mapping returns either [-1], and then no shot holds [t] in its
    half-open interval, or the index of a shot that does while no shot of
    lower index does.  In particular it returns [-1] when [t] lies in no
    shot (in a gap, or after the last shot) and when [t] precedes all
    shots, and for the shots [(0,0,5),(5,5,9)] it returns 1 at 5 and [-1]
    at 9 and at -1. *)
Theorem activeShotAt_first_match (shots : list Shot) (t : Q) :
  ((activeShotAt t shots = (-1)%Z
    /\ forall s, In s shots -> ~ (start_time s <= t /\ t < end_time s)%Q)
   \/ (exists s,
          (0 <= activeShotAt t shots < JS.len shots)%Z
          /\ JS.get shots (activeShotAt t shots) = Some s
          /\ (start_time s <= t /\ t < end_time s)%Q
          /\ forall j s', (0 <= j < activeShotAt t shots)%Z ->
                          JS.get shots j = Some s' ->
                          ~ (start_time s' <= t /\ t < end_time s')%Q))
  /\ ((forall s, In s shots -> ~ (start_time s <= t /\ t < end_time s)%Q) ->
      activeShotAt t shots = (-1)%Z)
  /\ ((forall s, In s shots -> (t < start_time s)%Q) ->
      activeShotAt t shots = (-1)%Z)
  /\ activeShotAt 5 two_shots = 1%Z
  /\ activeShotAt 9 two_shots = (-1)%Z
  /\ activeShotAt (-1) two_shots = (-1)%Z.
Proof.
  split; [|split; [|split; [|repeat split]]].
  - unfold activeShotAt, JS.findIndex.
    destruct (Z.eq_dec (JS.findIndex_from (under_playhead t) shots 0) (-1)) as [E|E].
    + left. split; [assumption|]. intros s Hs.
      apply under_playhead_false.
      now apply (proj1 (findIndex_from_none (under_playhead t) shots 0 ltac:(lia)) E).
    + right.
      destruct (findIndex_from_range (under_playhead t) shots 0 ltac:(lia)) as [R|R];
        [congruence|].
      destruct (findIndex_from_found (under_playhead t) shots 0 _ ltac:(lia) eq_refl E)
        as (s & Hs & Ps & Hlow).
      rewrite Z.sub_0_r in Hs, Hlow.
      exists s. repeat split; try lia.
      * unfold JS.get. destruct (Z.ltb_spec (JS.findIndex_from (under_playhead t) shots 0) 0);
          [lia|assumption].
      * now apply under_playhead_iff in Ps.
      * now apply under_playhead_iff in Ps.
      * intros j s' Hj Hget. apply under_playhead_false.
        unfold JS.get in Hget. destruct (Z.ltb_spec j 0); [lia|].
        apply (Hlow (Z.to_nat j) s'); [lia|assumption].
  - intros H. unfold activeShotAt, JS.findIndex.
    apply findIndex_from_none; [lia|].
    intros s Hs. apply under_playhead_false. now apply H.
  - intros H. unfold activeShotAt, JS.findIndex.
    apply findIndex_from_none; [lia|].
    intros s Hs. apply under_playhead_false. intros [H1 H2].
    apply (Qlt_not_le _ _ (H s Hs)). exact H1.
Qed.

Lemma activeShotAt_first_match_witness :
  activeShotAt (-2) two_shots = (-1)%Z.
Proof.
  apply (proj1 (proj2 (proj2 (activeShotAt_first_match two_shots (-2))))).
  intros s [<-|[<-|[]]]; reflexivity.
Defined.

End PlayheadFacts.

(** ** The console: snapshots and updates in place *)

Module ConsoleFacts.

Import Console Samples.

Lemma lastElementChild_snoc (init : list LogLine) (l : LogLine) :
  lastElementChild (init ++ [l]) = Some l.
Proof.
  unfold lastElementChild. rewrite map_app. simpl. apply last_last.
Qed.

Lemma lastElementChild_inv (container : list LogLine) :
  match lastElementChild container with
  | Some l => container = removelast container ++ [l]
  | None => container = []
  end.
Proof.
  destruct container as [|x rest] using rev_ind; [reflexivity|].
  rewrite lastElementChild_snoc. now rewrite removelast_last.
Qed.

Lemma set_last_innerHTML_snoc init l styled :
  set_last_innerHTML (init ++ [l]) styled = init ++ [mkLine styled (style_color l)].
Proof.
  unfold set_last_innerHTML. rewrite lastElementChild_snoc.
  now rewrite removelast_last.
Qed.

Section WithDOM.

Variable html_text : string -> string.

Local Abbreviation renderStyledLine := (renderStyledLine html_text).
Local Abbreviation renderLines := (renderLines html_text).
Local Abbreviation logConsole := (logConsole html_text).
Local Abbreviation same_replaceable_category := (same_replaceable_category html_text).
Local Abbreviation replaces := (replaces html_text).

Lemma replaces_iff container rawLine :
  replaces container rawLine = true <-> same_replaceable_category container rawLine.
Proof.
  unfold Console.replaces, Console.same_replaceable_category. split.
  - destruct (lastElementChild container) as [l|]; [|discriminate].
    rewrite orb_true_iff, !andb_true_iff. intros [[H1 H2]|[H1 H2]].
    + now exists TokenStream, l.
    + now exists BoundaryScan, l.
  - intros (c & l & H1 & -> & H2).
    destruct c; simpl in H1, H2; rewrite H1, H2; simpl; auto using orb_true_r.
Qed.

Lemma renderStyledLine_eq container rawLine forceSuccess forceError :
  renderStyledLine container rawLine forceSuccess forceError
  = if replaces container rawLine
    then (set_last_innerHTML container (style rawLine),
          Replaced rawLine (style rawLine))
    else (container ++ [mkLine (style rawLine)
                               (line_color (style rawLine) forceSuccess forceError)],
          Appended rawLine (style rawLine)).
Proof.
  unfold Console.renderStyledLine, Console.replaces.
  destruct (lastElementChild container) as [l|].
  - unfold token_signature, shot_signature.
    repeat match goal with
           | |- context [JS.includes ?a ?b] => destruct (JS.includes a b)
           end; reflexivity.
  - destruct (token_signature rawLine), (shot_signature rawLine); reflexivity.
Qed.

Lemma renderStyledLine_length container rawLine forceSuccess forceError :
  (length container
   <= length (fst (renderStyledLine container rawLine forceSuccess forceError)))%nat.
Proof.
  rewrite renderStyledLine_eq. unfold Console.replaces.
  pose proof (lastElementChild_inv container) as Hinv.
  destruct (lastElementChild container) as [l|].
  - destruct (_ || _); simpl.
    + rewrite Hinv at 2. rewrite set_last_innerHTML_snoc.
      rewrite Hinv at 1. rewrite !length_app. simpl. lia.
    + rewrite length_app. simpl. lia.
  - simpl. rewrite length_app. lia.
Qed.

Lemma renderLines_events newLines :
  forall container,
    map event_line (snd (renderLines container newLines)) = newLines
    /\ (length container <= length (fst (renderLines container newLines)))%nat.
Proof.
  induction newLines as [|line rest IH]; intros container; simpl.
  - split; [reflexivity|lia].
  - pose proof (renderStyledLine_length container line false false) as Hlen.
    destruct (renderStyledLine container line false false) as [container1 ev] eqn:E1.
    specialize (IH container1).
    destruct (renderLines container1 rest) as [container2 evs] eqn:E2.
    simpl in *. destruct IH as [IH1 IH2]. split.
    + f_equal; [|assumption].
      pose proof (renderStyledLine_eq container line false false) as Heq.
      rewrite E1 in Heq. destruct (replaces container line); now inversion Heq.
    + lia.
Qed.

(** C3.  Snapshot rendering.  On a console that exists, a snapshot call
    renders exactly the lines beyond index [n], in order, and sets [n] to
    the length of the snapshot; a snapshot no longer than [n] changes
    nothing and renders nothing.  So [n] never decreases, no rendered line
    is removed, feeding the same snapshot again renders nothing, and so
    does any snapshot that is not longer. *)
Theorem logConsole_snapshot_idempotent
        (timestamp timestamp' : string) (isSuccess isError isSuccess' isError' : bool)
        (c : t) (lines : list LogLine) (content : list string) :
  consoleLog c = Some lines ->
  let n := lastRenderedLogCount c in
  let r := logConsole timestamp (Snapshot content) isSuccess isError c in
  ((length content <= n)%nat -> r = (c, []))
  /\ ((n < length content)%nat ->
      lastRenderedLogCount (fst r) = length content
      /\ map event_line (snd r) = skipn n content
      /\ consoleLog (fst r) = Some (fst (renderLines lines (skipn n content)))
      /\ snd r = snd (renderLines lines (skipn n content)))
  /\ (n <= lastRenderedLogCount (fst r))%nat
  /\ (exists lines', consoleLog (fst r) = Some lines'
                     /\ (length lines <= length lines')%nat)
  /\ (forall content',
         (length content' <= length content)%nat ->
         logConsole timestamp' (Snapshot content') isSuccess' isError' (fst r)
         = (fst r, [])).
Proof.
  intros Hc n r.
  assert (Hshort : forall c0 ts a b content0,
             (length content0 <= lastRenderedLogCount c0)%nat ->
             logConsole ts (Snapshot content0) a b c0 = (c0, [])).
  { intros c0 ts a b content0 Hle. unfold Console.logConsole.
    destruct (consoleLog c0); [|reflexivity].
    rewrite skipn_all2 by assumption. reflexivity. }
  assert (Hlong : (n < length content)%nat ->
                  r = (mk (length content)
                          (Some (fst (renderLines lines (skipn n content)))),
                       snd (renderLines lines (skipn n content)))).
  { intros Hlt. subst r. unfold Console.logConsole. rewrite Hc. fold n.
    destruct (Nat.eqb_spec (length (skipn n content)) 0) as [E|E].
    - rewrite length_skipn in E. lia.
    - now destruct (renderLines lines (skipn n content)). }
  destruct (Nat.le_gt_cases (length content) n) as [Hle|Hlt].
  - assert (Hr : r = (c, [])) by (apply Hshort; assumption).
    rewrite Hr. simpl. split; [|split; [|split; [|split]]].
    + reflexivity.
    + lia.
    + lia.
    + exists lines. split; [assumption|lia].
    + intros content' Hle'. apply Hshort. fold n. lia.
  - specialize (Hlong Hlt). rewrite Hlong. simpl.
    destruct (renderLines_events (skipn n content) lines) as [Hev Hlen].
    split; [|split; [|split; [|split]]].
    + lia.
    + intros _. repeat split; assumption.
    + lia.
    + eexists. split; [reflexivity|assumption].
    + intros content' Hle'. apply Hshort. simpl. assumption.
Qed.

(** C4.  Updates in place.  [renderStyledLine] replaces the markup of the
    last rendered line, and nothing else, exactly when the new line carries
    a replaceable category (token streaming or boundary scan, judged on its
    text) and the last rendered line carries the same one; in every other
    case it appends a new line. *)
Theorem renderStyledLine_replaces_iff_same_category
        (container : list LogLine) (rawLine : string) (forceSuccess forceError : bool) :
  (same_replaceable_category container rawLine ->
   exists init lastLine,
     container = init ++ [lastLine]
     /\ renderStyledLine container rawLine forceSuccess forceError
        = (init ++ [mkLine (style rawLine) (style_color lastLine)],
           Replaced rawLine (style rawLine)))
  /\ (~ same_replaceable_category container rawLine ->
      renderStyledLine container rawLine forceSuccess forceError
      = (container ++ [mkLine (style rawLine)
                              (line_color (style rawLine) forceSuccess forceError)],
         Appended rawLine (style rawLine)))
  /\ (is_append (snd (renderStyledLine container rawLine forceSuccess forceError)) = false
      <-> same_replaceable_category container rawLine).
Proof.
  rewrite renderStyledLine_eq. rewrite <- replaces_iff.
  pose proof (lastElementChild_inv container) as Hinv.
  destruct (replaces container rawLine) eqn:R.
  - repeat split; try congruence. intros _.
    unfold Console.replaces in R. destruct (lastElementChild container) as [l|]; [|discriminate].
    exists (removelast container), l. split; [assumption|].
    rewrite Hinv at 1. now rewrite set_last_innerHTML_snoc.
  - repeat split; try congruence; simpl; congruence.
Qed.

End WithDOM.

Lemma logConsole_snapshot_idempotent_witness :
  snd (logConsole strip_tags "12:00:04" (Snapshot streaming_snapshot) false false
                  (fst (logConsole strip_tags "12:00:03" (Snapshot streaming_snapshot)
                                   false false streaming_console)))
  = [].
Proof.
  pose proof (logConsole_snapshot_idempotent strip_tags "12:00:03" "12:00:04"
                false false false false streaming_console _ streaming_snapshot eq_refl)
    as (_ & _ & _ & _ & H).
  rewrite (H streaming_snapshot (Nat.le_refl _)). reflexivity.
Defined.

Lemma renderStyledLine_replaces_iff_same_category_witness :
  exists init lastLine,
    [mkLine (style "[12:00:01] [TOKEN] Thinking... a") None] = init ++ [lastLine]
    /\ renderStyledLine strip_tags
                        [mkLine (style "[12:00:01] [TOKEN] Thinking... a") None]
                        "[12:00:02] [TOKEN] Thinking... ab" false false
       = (init ++ [mkLine (style "[12:00:02] [TOKEN] Thinking... ab")
                          (style_color lastLine)],
          Replaced "[12:00:02] [TOKEN] Thinking... ab"
                   (style "[12:00:02] [TOKEN] Thinking... ab")).
Proof.
  apply (proj1 (renderStyledLine_replaces_iff_same_category strip_tags
                  [mkLine (style "[12:00:01] [TOKEN] Thinking... a") None]
                  "[12:00:02] [TOKEN] Thinking... ab" false false)).
  exists TokenStream, (mkLine (style "[12:00:01] [TOKEN] Thinking... a") None).
  repeat split; vm_compute; reflexivity.
Defined.

End ConsoleFacts.

(** ** The polling loop *)

Module PollerFacts.

Import Poller Samples.

Local Open Scope string_scope.

Lemma append_assoc (a b c : string) : (a ++ b) ++ c = a ++ (b ++ c).
Proof. induction a as [|ch a IH]; simpl; [reflexivity|now rewrite IH]. Qed.

(** Only the terminal part of a tick clears the interval, polls, or
    notifies progress as follows. *)
Lemma log_part_shape (s : Status) :
  forall e, In e (log_part s) -> exists content, e = LogConsole content false false.
Proof.
  intros e. unfold log_part.
  destruct (logs s) as [[|line rest]|];
    [destruct (status s); [destruct (truthy_string _)|]| |
     destruct (status s); [destruct (truthy_string _)|]];
    simpl; intros H; try tauto;
    destruct H as [<-|[]]; eauto.
Qed.

Lemma progress_part_shape (s : Status) :
  forall e, In e (progress_part s) -> exists pct, e = UpdateProgressBar pct.
Proof.
  intros e. unfold progress_part.
  destruct (step s), (total s); simpl; try tauto.
  destruct (_ && _); simpl; try tauto.
  intros [<-|[]]; eauto.
Qed.


Lemma filter_none {A} (f : A -> bool) (l : list A) :
  (forall x, In x l -> f x = false) -> filter f l = [].
Proof.
  induction l as [|x l IH]; intros H; simpl; [reflexivity|].
  rewrite (H x (or_introl eq_refl)). apply IH. intros y Hy. apply H. now right.
Qed.









Lemma run_cons e events p : run (e :: events) p = run events (handle e p).
Proof. reflexivity. Qed.














End PollerFacts.

(** ** Navigation *)

Module NavigationFacts.

Import Player Samples.

Lemma get_in_range {A} (arr : list A) (i : Z) :
  (0 <= i < JS.len arr)%Z -> exists x, JS.get arr i = Some x.
Proof.
  unfold JS.get, JS.len. intros H.
  destruct (Z.ltb_spec i 0); [lia|].
  destruct (nth_error arr (Z.to_nat i)) as [x|] eqn:E; [now exists x|].
  apply nth_error_None in E. lia.
Qed.

Lemma len_nonempty {A} (arr : list A) : arr <> [] -> (JS.len arr =? 0)%Z = false.
Proof.
  destruct arr; [congruence|]. intros _. unfold JS.len. simpl length.
  apply Z.eqb_neq. lia.
Qed.

Lemma max_min_clamp (x hi : Z) :
  (0 <= hi)%Z -> Z.max 0 (Z.min x hi) = clamp x 0 hi.
Proof.
  intros H. unfold clamp.
  destruct (Z.ltb_spec x 0); [lia|]. destruct (Z.ltb_spec hi x); lia.
Qed.

Lemma videoPlayer_some (w : Page) (v : VideoElement) :
  videoPlayer w = Some v -> bound w = true /\ video_el w = Some v.
Proof. unfold videoPlayer. destruct (bound w); [auto|discriminate]. Qed.

Lemma jump_frame (v : VideoElement) (target : Shot) (w : Page) :
  store (jump v target w) = store w
  /\ video_el (jump v target w) = Some (set_currentTime (start_time target) v)
  /\ overlay_el (jump v target w) = overlay_el w
  /\ bound (jump v target w) = bound w
  /\ highlighted (jump v target w)
     = if paused v then highlighted w ++ [shot_id target] else highlighted w.
Proof. unfold jump. destruct (paused v); simpl; auto. Qed.

(** In separated shots the start of shot [k] lies under shot [k] first. *)
Lemma findIndex_start_of (shots : list Shot) :
  forall k s i,
    separated shots -> nth_error shots k = Some s ->
    JS.findIndex_from (under_playhead (start_time s)) shots i = (i + Z.of_nat k)%Z.
Proof.
  induction shots as [|h rest IH]; intros k s i Hsep Hk.
  - destruct k; discriminate.
  - destruct Hsep as (Hlt & Hafter & Hrest). destruct k as [|k]; simpl in Hk.
    + inversion Hk; subst h. simpl.
      replace (under_playhead (start_time s) s) with true; [lia|].
      symmetry. apply PlayheadFacts.under_playhead_iff. split; [apply Qle_refl|assumption].
    + simpl. replace (under_playhead (start_time s) h) with false.
      * rewrite (IH k s (i + 1)%Z Hrest Hk). lia.
      * symmetry. apply PlayheadFacts.under_playhead_false. intros [_ H].
        rewrite Forall_forall in Hafter.
        apply (Qlt_not_le _ _ H). apply Hafter. eapply nth_error_In; eassumption.
Qed.

Lemma activeShotAt_range (t : Q) (shots : list Shot) :
  activeShotAt t shots = (-1)%Z \/ (0 <= activeShotAt t shots < JS.len shots)%Z.
Proof.
  unfold activeShotAt, JS.findIndex.
  destruct (PlayheadFacts.findIndex_from_range (under_playhead t) shots 0 ltac:(lia));
    [now left|right; lia].
Qed.

(** The time handler writes the cursor only with the index it found. *)
Lemma timeupdate_handler_cursor (w : Page) (v : VideoElement) :
  videoPlayer w = Some v ->
  exists w',
    timeupdate_handler w = JS.Normal w'
    /\ Store.inferenceResults (store w') = Store.inferenceResults (store w)
    /\ Store.currentShotIndex (store w')
       = (if (activeShotAt (currentTime v) (Store.inferenceResults (store w)) =? -1)%Z
          then Store.currentShotIndex (store w)
          else activeShotAt (currentTime v) (Store.inferenceResults (store w))).
Proof.
  intros Hv. unfold timeupdate_handler. rewrite Hv.
  set (shotIdx := activeShotAt (currentTime v) (Store.inferenceResults (store w))).
  destruct (Z.eqb_spec shotIdx (-1)) as [E|E]; simpl; [exists w; auto|].
  destruct (Z.eqb_spec shotIdx (Store.currentShotIndex (store w))); simpl;
    [exists w; auto|].
  destruct (activeShotAt_range (currentTime v) (Store.inferenceResults (store w)))
    as [R|R]; [contradiction|].
  destruct (get_in_range _ _ R) as [activeShot Hget]. fold shotIdx in Hget.
  rewrite Hget. unfold overlay. simpl.
  destruct (bound w); [destruct (overlay_el w)|];
    eexists; (split; [reflexivity|]); simpl; auto.
Qed.

Lemma timeupdate_handler_unbound (w : Page) :
  videoPlayer w = None -> timeupdate_handler w = JS.Throws w.
Proof. intros Hv. unfold timeupdate_handler. now rewrite Hv. Qed.

(** The loop of [skipToScene] ends within the fuel it is given and never
    reads outside the array. *)
Lemma sceneScan_ends (results : list Shot) (offset : Z) :
  forall fuel idx,
    (0 < fuel)%nat ->
    ((0 <= idx < JS.len results)%Z ->
     ((if (0 <? offset)%Z then JS.len results - idx else idx + 1) < Z.of_nat fuel)%Z) ->
    sceneScan fuel results offset idx = Exhausted
    \/ exists i shot, sceneScan fuel results offset idx = Found i shot
                      /\ JS.get results i = Some shot /\ is_scene_break shot = true.
Proof.
  induction fuel as [|fuel IH]; intros idx Hfuel Hm.
  - lia.
  - simpl sceneScan.
    destruct (Z.leb_spec 0 idx); simpl; [|now left].
    destruct (Z.ltb_spec idx (JS.len results)); simpl; [|now left].
    destruct (get_in_range results idx ltac:(lia)) as [shot Hget]. rewrite Hget.
    destruct (is_scene_break shot) eqn:B; [right; eauto|].
    specialize (Hm ltac:(lia)).
    destruct (Z.ltb_spec 0 offset).
    + apply IH; [lia|intros _; lia].
    + apply IH; [lia|intros _; lia].
Qed.

Lemma skipToScene_returns (offset : Z) (w : Page) :
  exists w', skipToScene offset w = Some (JS.Normal w') /\ store w' = store w.
Proof.
  unfold skipToScene.
  destruct (videoPlayer w) as [v|]; [|eauto].
  destruct (JS.len _ =? 0)%Z; [eauto|].
  match goal with |- context [sceneScan ?f ?r ?o ?i] =>
    destruct (sceneScan_ends r o f i) as [E|(i' & shot & E & _)] end.
  - lia.
  - intros Hr. unfold JS.len in *. destruct (0 <? offset)%Z; lia.
  - rewrite E. eauto.
  - rewrite E. eexists. split; [reflexivity|]. apply jump_frame.
Qed.

(** C8, as the code has it.  On a non-empty shot sequence with a player,
    [skipToShot] aims at index [clamp(current + offset, 0, count - 1)],
    which is in range, never wrapped: it moves the playhead to the start of
    that shot and, when the player is paused, emits the selection-changed
    notification for it.  It does not write the cursor: the cursor takes
    that index at the time sync that follows the seek, for separated
    shots. *)
Theorem skipToShot_seeks_clamped (offset : Z) (w : Page) (v : VideoElement) :
  videoPlayer w = Some v ->
  Store.inferenceResults (store w) <> [] ->
  let results := Store.inferenceResults (store w) in
  let newIdx := Z.max 0 (Z.min (Store.currentShotIndex (store w) + offset)
                               (JS.len results - 1)) in
  newIdx = clamp (Store.currentShotIndex (store w) + offset) 0 (JS.len results - 1)
  /\ (0 <= newIdx <= JS.len results - 1)%Z
  /\ exists targetShot w',
      JS.get results newIdx = Some targetShot
      /\ skipToShot offset w = JS.Normal w'
      /\ store w' = store w
      /\ video_el w' = Some (set_currentTime (start_time targetShot) v)
      /\ highlighted w'
         = (if paused v then highlighted w ++ [shot_id targetShot] else highlighted w)
      /\ (ontimeupdate v = true -> separated results ->
          exists w'',
            fire_timeupdate w' = JS.Normal w''
            /\ Store.inferenceResults (store w'') = results
            /\ Store.currentShotIndex (store w'') = newIdx).
Proof.
  intros Hv Hne results newIdx.
  assert (Hlen : (1 <= JS.len results)%Z).
  { subst results. destruct (Store.inferenceResults (store w)); [congruence|].
    unfold JS.len. simpl length. lia. }
  assert (Hrange : (0 <= newIdx <= JS.len results - 1)%Z) by (subst newIdx; lia).
  split; [apply max_min_clamp; lia|]. split; [exact Hrange|].
  destruct (get_in_range results newIdx ltac:(lia)) as [targetShot Hget].
  exists targetShot, (jump v targetShot w).
  destruct (jump_frame v targetShot w) as (Hstore & Hvideo & _ & Hbound & Hhl).
  split; [exact Hget|]. split.
  { unfold skipToShot. rewrite Hv. fold results. rewrite (len_nonempty results Hne).
    fold newIdx. now rewrite Hget. }
  split; [exact Hstore|]. split; [exact Hvideo|]. split; [exact Hhl|].
  intros Hattached Hsep.
  unfold fire_timeupdate. rewrite Hvideo. simpl ontimeupdate. rewrite Hattached.
  set (v' := set_currentTime (start_time targetShot) v).
  assert (Hv' : videoPlayer (jump v targetShot w) = Some v').
  { unfold videoPlayer. rewrite Hbound, Hvideo.
    now rewrite (proj1 (videoPlayer_some w v Hv)). }
  destruct (timeupdate_handler_cursor (jump v targetShot w) v' Hv')
    as (w'' & Hret & Hres & Hcur).
  exists w''. split; [exact Hret|].
  rewrite Hstore in Hres, Hcur. fold results in Hres, Hcur. split; [exact Hres|].
  assert (Hfound : activeShotAt (currentTime v') results = newIdx).
  { unfold activeShotAt, JS.findIndex. subst v'. simpl currentTime.
    unfold JS.get in Hget.
    destruct (Z.ltb_spec newIdx 0); [lia|].
    rewrite (findIndex_start_of results (Z.to_nat newIdx) targetShot 0 Hsep Hget). lia. }
  rewrite Hfound in Hcur. rewrite Hcur.
  destruct (Z.eqb_spec newIdx (-1)); [lia|reflexivity].
Qed.

Lemma five_shots_separated : separated five_shots.
Proof.
  simpl. repeat split; repeat constructor; simpl; discriminate.
Qed.

Lemma skipToShot_seeks_clamped_witness :
  exists w',
    skipToShot (-3) (viewer five_shots 0 true) = JS.Normal w'
    /\ highlighted w' = ["a"%string]
    /\ exists w'', fire_timeupdate w' = JS.Normal w''
                   /\ Store.currentShotIndex (store w'') = 0%Z.
Proof.
  destruct (skipToShot_seeks_clamped (-3) (viewer five_shots 0 true) _ eq_refl
              ltac:(discriminate))
    as (_ & _ & targetShot & w' & Hget & Hskip & _ & _ & Hhl & Hsync).
  inversion Hget; subst targetShot.
  exists w'. split; [exact Hskip|]. split; [exact Hhl|].
  destruct (Hsync eq_refl five_shots_separated) as (w'' & Hfire & _ & Hcur).
  exists w''. split; [exact Hfire|exact Hcur].
Defined.

(** C8 as stated fails: a skip by 2 from index 0 of 5 paused shots leaves
    the cursor at 0, not at the clamped index 2; and while the video plays
    a skip by -3 from index 0 emits no selection-changed notification,
    neither at the skip nor at the time sync that follows. *)
Lemma skipToShot_cursor_counterexample :
  clamp (0 + 2) 0 (JS.len five_shots - 1) = 2%Z
  /\ (exists w', skipToShot 2 (viewer five_shots 0 true) = JS.Normal w'
                 /\ Store.currentShotIndex (store w') = 0%Z)
  /\ (exists w' w'', skipToShot (-3) (viewer five_shots 0 false) = JS.Normal w'
                     /\ fire_timeupdate w' = JS.Normal w''
                     /\ highlighted w' = [] /\ highlighted w'' = []).
Proof.
  split; [reflexivity|]. split.
  - eexists. split; reflexivity.
  - eexists. eexists. repeat split.
Qed.

(** C10.  With no shot loaded, [skipToShot] and [skipToScene] return at
    once for every offset and leave the whole page as it was: cursor,
    playhead, selection, and notifications. *)
Theorem skips_are_noops_on_empty (offset : Z) (w : Page) :
  Store.inferenceResults (store w) = [] ->
  skipToShot offset w = JS.Normal w
  /\ skipToScene offset w = Some (JS.Normal w).
Proof.
  intros Hempty. unfold skipToShot, skipToScene. rewrite Hempty.
  destruct (videoPlayer w); split; reflexivity.
Qed.

Lemma skips_are_noops_on_empty_witness :
  skipToShot 1 (viewer [] (-1) true) = JS.Normal (viewer [] (-1) true)
  /\ skipToScene (-1) (viewer [] (-1) true) = Some (JS.Normal (viewer [] (-1) true)).
Proof.
  split.
  - apply (skips_are_noops_on_empty 1 (viewer [] (-1) true) eq_refl).
  - apply (skips_are_noops_on_empty (-1) (viewer [] (-1) true) eq_refl).
Defined.

End NavigationFacts.

(** ** The cursor across operations *)

Module SessionFacts.

Import Player Session Samples.

Lemma initPlayer_store source w : store (initPlayer source w) = store w.
Proof.
  unfold initPlayer. destruct (videoPlayer _); [destruct (differs _ _)|]; reflexivity.
Qed.

Lemma syncPlayer_store w : store (syncPlayer w) = store w.
Proof. unfold syncPlayer. destruct (videoPlayer w); reflexivity. Qed.

Lemma hydrateSession_store sessionId data w :
  store (hydrateSession sessionId data w)
  = Store.set_session sessionId (shots data) (store w).
Proof.
  unfold hydrateSession. simpl. now rewrite syncPlayer_store, initPlayer_store.
Qed.

Lemma finalizeInference_store sessionId data w :
  store (finalizeInference sessionId data w)
  = Store.set_session sessionId (shots data) (store w).
Proof.
  unfold finalizeInference. now rewrite syncPlayer_store, initPlayer_store.
Qed.

Lemma skipToShot_store offset w : store (settle (skipToShot offset w)) = store w.
Proof.
  unfold skipToShot. destruct (videoPlayer w) as [v|]; [|reflexivity].
  destruct (JS.len _ =? 0)%Z; [reflexivity|].
  destruct (JS.get _ _); [apply NavigationFacts.jump_frame|reflexivity].
Qed.

Lemma seekToShot_store shot w : store (seekToShot shot w) = store w.
Proof.
  unfold seekToShot. destruct (videoPlayer w); [apply NavigationFacts.jump_frame|reflexivity].
Qed.

(** Rewriting with the frame lemmas of the operations that keep the
    store. *)
Ltac frame :=
  rewrite ?hydrateSession_store, ?finalizeInference_store, ?skipToShot_store,
    ?seekToShot_store, ?syncPlayer_store, ?initPlayer_store.

(** What a time sync does to the store: the shots stay, and the cursor
    stays or takes the index of a shot that is loaded. *)
Lemma playhead_reaches_store t w :
  Store.inferenceResults (store (settle (playhead_reaches t w)))
  = Store.inferenceResults (store w)
  /\ (Store.currentShotIndex (store (settle (playhead_reaches t w)))
      = Store.currentShotIndex (store w)
      \/ (0 <= Store.currentShotIndex (store (settle (playhead_reaches t w)))
          < JS.len (Store.inferenceResults (store w)))%Z).
Proof.
  unfold playhead_reaches. destruct (video_el w) as [v|] eqn:Hel; [|simpl; auto].
  unfold fire_timeupdate. simpl video_el. cbv iota beta.
  change (ontimeupdate (set_currentTime t v)) with (ontimeupdate v).
  destruct (ontimeupdate v); cbv iota; [|simpl; auto].
  set (w1 := set_video (set_currentTime t v) w).
  change (store w) with (store w1).
  destruct (videoPlayer w1) as [v1|] eqn:Hv1.
  - destruct (NavigationFacts.timeupdate_handler_cursor w1 v1 Hv1)
      as (w2 & -> & Hres & Hcur).
    pose proof (NavigationFacts.activeShotAt_range
                  (currentTime v1) (Store.inferenceResults (store w1))) as R.
    simpl settle. split; [exact Hres|]. rewrite Hcur.
    destruct (Z.eqb_spec (activeShotAt (currentTime v1)
                                       (Store.inferenceResults (store w1))) (-1));
      [now left|right]. destruct R; [contradiction|assumption].
  - rewrite (NavigationFacts.timeupdate_handler_unbound w1 Hv1). simpl. auto.
Qed.

Lemma exec_preserves op w :
  is_load op = false -> cursor_in_range w -> cursor_in_range (exec op w).
Proof.
  unfold cursor_in_range. destruct op; simpl; try discriminate; intros _ H.
  - now left.
  - destruct (playhead_reaches_store t w) as [-> [-> | Hc]]; [assumption|now right].
  - now rewrite skipToShot_store.
  - destruct (NavigationFacts.skipToScene_returns offset w) as (w' & -> & Hw').
    simpl. now rewrite Hw'.
  - now rewrite seekToShot_store.
Qed.

Lemma exec_lower_bound op w :
  (-1 <= Store.currentShotIndex (store w))%Z ->
  (-1 <= Store.currentShotIndex (store (exec op w)))%Z.
Proof.
  destruct op; simpl; intros H; frame; simpl; try lia.
  - destruct (playhead_reaches_store t w) as [_ [-> | Hc]]; lia.
  - destruct (NavigationFacts.skipToScene_returns offset w) as (w' & -> & Hw').
    simpl. now rewrite Hw'.
Qed.

(** C9, as the code has it.  The cursor starts at -1 on an empty shot
    sequence and the reset returns both to that; it is never below -1.
    A time sync writes only the index of a loaded shot, and the skips and
    the seek never write the cursor: every operation other than a session
    load keeps the cursor at -1 or at a valid index.  A session load
    replaces the shot sequence by the new one and keeps the cursor as it
    is, so after a load onto a fresh or reset store the cursor is still
    -1. *)
Theorem cursor_in_range_between_loads :
  (Store.currentShotIndex Store.initial = (-1)%Z
   /\ Store.inferenceResults Store.initial = [])
  /\ (forall w, store (exec Reset w) = Store.initial)
  /\ (forall op w, is_load op = false -> cursor_in_range w -> cursor_in_range (exec op w))
  /\ (forall ops w,
         forallb (fun op => negb (is_load op)) ops = true ->
         cursor_in_range w -> cursor_in_range (run ops w))
  /\ (forall ops w,
         (-1 <= Store.currentShotIndex (store w))%Z ->
         (-1 <= Store.currentShotIndex (store (run ops w)))%Z)
  /\ (forall op sessionId data w,
         op = Hydrate sessionId data \/ op = Finalize sessionId data ->
         Store.inferenceResults (store (exec op w)) = shots data
         /\ Store.currentShotIndex (store (exec op w)) = Store.currentShotIndex (store w)
         /\ (Store.currentShotIndex (store w) = (-1)%Z -> cursor_in_range (exec op w))).
Proof.
  split; [split; reflexivity|]. split; [reflexivity|].
  split; [exact exec_preserves|]. split; [|split].
  - induction ops as [|op ops IH]; intros w Hops Hw; [exact Hw|].
    simpl in Hops. apply andb_true_iff in Hops. destruct Hops as [Hop Hops].
    apply (IH (exec op w) Hops). apply exec_preserves; [|exact Hw].
    now apply negb_true_iff.
  - induction ops as [|op ops IH]; intros w Hw; [exact Hw|].
    apply (IH (exec op w)). now apply exec_lower_bound.
  - intros op sessionId data w [-> | ->]; simpl exec;
      unfold cursor_in_range; frame; simpl; auto.
Qed.

Lemma cursor_in_range_between_loads_witness :
  cursor_in_range (run [TimeSync 5; SkipShot 1; SkipScene (-1)]
                       (run [Hydrate "a" session_a] fresh_page)).
Proof.
  apply (proj1 (proj2 (proj2 (proj2 cursor_in_range_between_loads)))).
  - reflexivity.
  - apply (proj2 (proj2 (proj2 (proj2 (proj2 cursor_in_range_between_loads))))
             (Hydrate "a" session_a) "a"%string session_a fresh_page).
    + now left.
    + reflexivity.
Defined.

(** C9 as stated fails: a first load leaves the cursor at -1 although
    shots are loaded; and after a time sync to shot 2 of a session of
    three shots, the load of a session of one shot leaves the cursor at 2,
    out of range of the loaded shots. *)
Lemma cursor_out_of_range_counterexample :
  (Store.currentShotIndex (store (run [Hydrate "a" session_a] fresh_page)) = (-1)%Z
   /\ JS.len (Store.inferenceResults
                (store (run [Hydrate "a" session_a] fresh_page))) = 3%Z)
  /\ Store.currentShotIndex
       (store (run [Hydrate "a" session_a; TimeSync 5; Hydrate "b" session_b]
                   fresh_page)) = 2%Z
  /\ Store.inferenceResults
       (store (run [Hydrate "a" session_a; TimeSync 5; Hydrate "b" session_b]
                   fresh_page)) = shots session_b
  /\ JS.len (shots session_b) = 1%Z
  /\ ~ cursor_in_range (run [Hydrate "a" session_a; TimeSync 5; Hydrate "b" session_b]
                            fresh_page).
Proof.
  split; [split; reflexivity|]. split; [reflexivity|]. split; [reflexivity|].
  split; [reflexivity|].
  unfold cursor_in_range.
  change (Store.currentShotIndex
            (store (run [Hydrate "a" session_a; TimeSync 5; Hydrate "b" session_b]
                        fresh_page))) with 2%Z.
  change (JS.len (Store.inferenceResults
            (store (run [Hydrate "a" session_a; TimeSync 5; Hydrate "b" session_b]
                        fresh_page)))) with 1%Z.
  lia.
Qed.

End SessionFacts.

(** * Further properties of the code *)

(** ** The timeline: numbering and shape of the scenes *)

Module TimelineMore.

Import Timeline Scenes.

Lemma injectSceneBlock_index container shots index :
  shots <> [] ->
  map scene_index container = seq 1 (length container) ->
  index = S (length container) ->
  map scene_index (injectSceneBlock container shots index)
  = seq 1 (length (injectSceneBlock container shots index))
  /\ length (injectSceneBlock container shots index) = S (length container).
Proof.
  destruct shots as [|head rest]; [congruence|]. intros _ Hidx ->.
  unfold injectSceneBlock. rewrite map_app, length_app, Hidx. simpl length.
  rewrite Nat.add_1_r, seq_S. simpl. auto.
Qed.

Lemma forEach_numbering rest :
  forall idx st,
    sceneBuffer st <> [] ->
    map scene_index (gridContainer st) = seq 1 (length (gridContainer st)) ->
    sceneCount st = S (length (gridContainer st)) ->
    map scene_index (flush (forEach_from (S idx) rest st))
    = seq 1 (length (flush (forEach_from (S idx) rest st)))
    /\ length (flush (forEach_from (S idx) rest st))
       = (length (gridContainer st) + S (count_breaks rest))%nat.
Proof.
  unfold count_breaks.
  induction rest as [|shot rest IH]; intros idx st Hbuf Hidx Hcount.
  - cbn [forEach_from filter length]. unfold flush.
    destruct (sceneBuffer st) as [|b bs] eqn:E; [congruence|].
    change (0 <? length (b :: bs))%nat with true. cbv iota.
    destruct (injectSceneBlock_index (gridContainer st) (b :: bs) (sceneCount st))
      as [H1 H2]; try assumption; try discriminate.
    split; [exact H1|]. rewrite H2. lia.
  - cbn [forEach_from]. unfold visit.
    replace (is_scene_break shot && negb (S idx =? 0)%nat) with (is_scene_break shot)
      by (simpl; now rewrite andb_true_r).
    cbn [filter]. destruct (is_scene_break shot); cbv iota;
      cbn [gridContainer sceneBuffer sceneCount].
    + destruct (injectSceneBlock_index (gridContainer st) (sceneBuffer st) (sceneCount st))
        as [H1 H2]; try assumption.
      destruct (IH (S idx)
                   (mkRender (injectSceneBlock (gridContainer st) (sceneBuffer st)
                                               (sceneCount st))
                             ([] ++ [shot]) (S (sceneCount st)))) as [G1 G2];
        cbn [gridContainer sceneBuffer sceneCount].
      * discriminate.
      * exact H1.
      * now rewrite H2, Hcount.
      * cbn [gridContainer sceneBuffer sceneCount] in G2.
        split; [exact G1|]. rewrite G2, H2. cbn [length]. lia.
    + destruct (IH (S idx)
                   (mkRender (gridContainer st) (sceneBuffer st ++ [shot]) (sceneCount st)))
        as [G1 G2]; cbn [gridContainer sceneBuffer sceneCount]; try assumption.
      * destruct (sceneBuffer st); simpl; discriminate.
      * cbn [gridContainer sceneBuffer sceneCount] in G2.
        split; [exact G1|exact G2].
Qed.

(** The scenes rendered, taken together, are the shots in order. *)
Lemma renderTimeline_concat (shots : list Shot) :
  concat (map scene_shots (renderTimeline shots)) = shots.
Proof.
  change (map scene_shots (renderTimeline shots)) with (groupScenes shots).
  rewrite TimelineFacts.groupScenes_refines.
  destruct shots as [|shot0 rest]; [reflexivity|].
  simpl. apply TimelineFacts.scan_spec_concat.
Qed.

(** X1.  The scene headers are numbered 1, 2, 3, ... in the order of the
    grid, and a non-empty shot sequence gives one scene more than it has
    boundary flags after shot 0. *)
Theorem renderTimeline_numbers_scenes (shots : list Shot) :
  map scene_index (renderTimeline shots) = seq 1 (length (renderTimeline shots))
  /\ length (renderTimeline shots)
     = match shots with
       | [] => 0%nat
       | _ :: rest => S (count_breaks rest)
       end.
Proof.
  destruct shots as [|shot0 rest]; [split; reflexivity|].
  unfold renderTimeline. simpl forEach_from.
  match goal with |- context [forEach_from 1 rest ?st'] =>
    destruct (forEach_numbering rest 0 st') as [G1 G2] end.
  - unfold visit. rewrite andb_false_r. simpl. discriminate.
  - unfold visit. rewrite andb_false_r. reflexivity.
  - unfold visit. rewrite andb_false_r. reflexivity.
  - split; [exact G1|]. rewrite G2. unfold visit. rewrite andb_false_r. reflexivity.
Qed.

Lemma scan_spec_shape rest :
  forall first later,
    Forall (fun s => is_scene_break s = false) later ->
    Forall quiet_after_first (scan_spec (first :: later) rest)
    /\ Forall opened_by_break (tl (scan_spec (first :: later) rest)).
Proof.
  induction rest as [|shot rest IH]; intros first later Hq; simpl.
  - split; [constructor; [exact Hq|constructor]|constructor].
  - destruct (is_scene_break shot) eqn:B.
    + destruct (IH shot [] (Forall_nil _)) as [H1 H2]. split.
      * constructor; [exact Hq|exact H1].
      * simpl. destruct (scan_spec [shot] rest) as [|sc more] eqn:E.
        -- constructor.
        -- constructor; [|exact H2].
           assert (Hhd : exists l, sc = shot :: l).
           { clear -E. revert E. generalize (@nil Shot). revert sc more.
             induction rest as [|x rest IHr]; intros sc more acc E; simpl in E.
             - inversion E. eauto.
             - destruct (is_scene_break x).
               + inversion E. eauto.
               + destruct (IHr sc more _ E) as [l ->]. eauto. }
           destruct Hhd as [l ->]. exact B.
    + apply (IH first (later ++ [shot])).
      apply Forall_app. split; [exact Hq|constructor; [exact B|constructor]].
Qed.

(** X2.  In the grouping rendered by [renderTimeline] no scene is empty, no
    shot after the first shot of a scene carries the boundary flag, and
    every scene but the first is opened by a shot that carries it. *)
Theorem renderTimeline_scene_shape (shots : list Shot) :
  Forall quiet_after_first (groupScenes shots)
  /\ Forall opened_by_break (tl (groupScenes shots)).
Proof.
  rewrite TimelineFacts.groupScenes_refines.
  destruct shots as [|shot0 rest]; [split; constructor|].
  simpl. apply scan_spec_shape. constructor.
Qed.

End TimelineMore.

(** ** The player: scene skips, seeks and the time handler *)

Module PlayerMore.

Import Player Scenes.

Lemma get_some_range {A} (arr : list A) (i : Z) (x : A) :
  JS.get arr i = Some x -> (0 <= i < JS.len arr)%Z.
Proof.
  unfold JS.get, JS.len. destruct (Z.ltb_spec i 0) as [Hneg|Hpos]; [discriminate|].
  intros Hget. assert (Hn : nth_error arr (Z.to_nat i) <> None) by congruence.
  apply nth_error_Some in Hn. lia.
Qed.

Lemma direction_unit offset : direction offset = 1%Z \/ direction offset = (-1)%Z.
Proof. unfold direction. destruct (0 <? offset)%Z; auto. Qed.

Lemma sceneScan_step (results : list Shot) (offset idx : Z) (fuel : nat) :
  sceneScan (S fuel) results offset idx
  = if (0 <=? idx)%Z && (idx <? JS.len results)%Z then
      match JS.get results idx with
      | None => Undefined
      | Some shot =>
          if is_scene_break shot then Found idx shot
          else sceneScan fuel results offset (idx + direction offset)%Z
      end
    else Exhausted.
Proof. reflexivity. Qed.

(** The loop finds the first flagged shot along its walk. *)
Lemma sceneScan_finds (results : list Shot) (offset : Z) (n : nat) :
  forall fuel idx target,
    (n < fuel)%nat ->
    (0 <= idx < JS.len results)%Z ->
    (forall i s, (i < n)%nat ->
                 JS.get results (idx + direction offset * Z.of_nat i) = Some s ->
                 is_scene_break s = false) ->
    JS.get results (idx + direction offset * Z.of_nat n) = Some target ->
    is_scene_break target = true ->
    sceneScan fuel results offset idx
    = Found (idx + direction offset * Z.of_nat n) target.
Proof.
  induction n as [|n IH]; intros fuel idx target Hfuel Hidx Hquiet Hget Hbreak.
  - destruct fuel as [|fuel]; [lia|]. rewrite sceneScan_step.
    replace (idx + direction offset * Z.of_nat 0)%Z with idx in * by lia.
    destruct (Z.leb_spec 0 idx); [|lia].
    destruct (Z.ltb_spec idx (JS.len results)); [|lia].
    simpl. now rewrite Hget, Hbreak.
  - destruct fuel as [|fuel]; [lia|]. rewrite sceneScan_step.
    destruct (Z.leb_spec 0 idx); [|lia].
    destruct (Z.ltb_spec idx (JS.len results)); [|lia]. cbv iota. simpl andb. cbv iota.
    destruct (NavigationFacts.get_in_range results idx Hidx) as [s Hs]. rewrite Hs.
    assert (Hq0 : is_scene_break s = false).
    { apply (Hquiet 0%nat s); [lia|]. now replace (idx + direction offset * Z.of_nat 0)%Z
        with idx by lia. }
    rewrite Hq0.
    pose proof (get_some_range _ _ _ Hget) as Hend.
    replace (idx + direction offset * Z.of_nat (S n))%Z
      with (idx + direction offset + direction offset * Z.of_nat n)%Z in * by lia.
    apply IH; try assumption; try lia.
    + destruct (direction_unit offset) as [D|D]; rewrite D in *; lia.
    + intros i s' Hi Hs'. apply (Hquiet (S i) s'); [lia|].
      now replace (idx + direction offset * Z.of_nat (S i))%Z
        with (idx + direction offset + direction offset * Z.of_nat i)%Z by lia.
Qed.

(** What the loop finds is a flagged shot on its walk. *)
Lemma sceneScan_found_on_walk (results : list Shot) (offset : Z) :
  forall fuel idx i shot,
    sceneScan fuel results offset idx = Found i shot ->
    exists n, i = (idx + direction offset * Z.of_nat n)%Z
              /\ JS.get results i = Some shot /\ is_scene_break shot = true.
Proof.
  induction fuel as [|fuel IH]; intros idx i shot Hscan; [discriminate|].
  rewrite sceneScan_step in Hscan.
  destruct ((0 <=? idx)%Z && (idx <? JS.len results)%Z); [|discriminate].
  destruct (JS.get results idx) as [s|] eqn:Hs; [|discriminate].
  destruct (is_scene_break s) eqn:B.
  - inversion Hscan; subst. exists 0%nat. repeat split; auto. lia.
  - destruct (IH _ _ _ Hscan) as (n & -> & Hget & Hb).
    exists (S n). repeat split; auto. lia.
Qed.

(** X3.  [skipToScene] jumps to the nearest flagged shot in its direction:
    when the walk from [current + offset] (forwards for a positive offset,
    backwards otherwise) starts inside the shots and its first flagged shot
    is the [n]-th one it looks at, the playhead moves to the start of that
    shot, the selection-changed notification is emitted when the player is
    paused, and the cursor is not written. *)
Theorem skipToScene_jumps_to_nearest_break
        (offset : Z) (w : Page) (v : VideoElement) (n : nat) (target : Shot) :
  videoPlayer w = Some v ->
  (0 <= scanned w offset 0)%Z ->
  (scanned w offset 0 < JS.len (Store.inferenceResults (store w)))%Z ->
  (forall i s, (i < n)%nat ->
               JS.get (Store.inferenceResults (store w)) (scanned w offset i) = Some s ->
               is_scene_break s = false) ->
  JS.get (Store.inferenceResults (store w)) (scanned w offset n) = Some target ->
  is_scene_break target = true ->
  skipToScene offset w = Some (JS.Normal (jump v target w))
  /\ store (jump v target w) = store w
  /\ video_el (jump v target w) = Some (set_currentTime (start_time target) v)
  /\ highlighted (jump v target w)
     = if paused v then highlighted w ++ [shot_id target] else highlighted w.
Proof.
  intros Hv Hlo Hhi Hquiet Hget Hbreak.
  destruct (NavigationFacts.jump_frame v target w) as (Hstore & Hvideo & _ & _ & Hhl).
  split; [|auto]. unfold skipToScene. rewrite Hv.
  unfold scanned in *. set (results := Store.inferenceResults (store w)) in *.
  set (idx := (Store.currentShotIndex (store w) + offset)%Z) in *.
  replace (idx + direction offset * Z.of_nat 0)%Z with idx in Hlo, Hhi by lia.
  destruct (Z.eqb_spec (JS.len results) 0); [lia|].
  pose proof (get_some_range _ _ _ Hget) as Hend.
  rewrite (sceneScan_finds results offset n (S (length results)) idx target);
    try assumption; [reflexivity| |lia].
  unfold JS.len in *. destruct (direction_unit offset) as [D|D]; rewrite D in *; lia.
Qed.

Lemma skipToScene_jumps_to_nearest_break_witness :
  skipToScene 1 (Samples.viewer Samples.five_shots 0 true)
  = Some (JS.Normal (jump (mkVideo (Some "/playground/s1/v.mp4"%string) 0 true true)
                          (Samples.sample_shot "c" 4 6 true)
                          (Samples.viewer Samples.five_shots 0 true))).
Proof.
  apply (skipToScene_jumps_to_nearest_break 1 (Samples.viewer Samples.five_shots 0 true)
           _ 1%nat (Samples.sample_shot "c" 4 6 true) eq_refl).
  - discriminate.
  - reflexivity.
  - intros [|i] s Hi Hs; [|lia]. now inversion Hs.
  - reflexivity.
  - reflexivity.
Defined.

(** X4.  [skipToScene] does nothing at all, neither to the playhead nor to
    the selection, when the walk starts outside the shots (as from a
    cursor beyond the end) or meets no flagged shot. *)
Theorem skipToScene_without_break_is_noop (offset : Z) (w : Page) :
  (scanned w offset 0 < 0)%Z
  \/ (JS.len (Store.inferenceResults (store w)) <= scanned w offset 0)%Z
  \/ (forall i s, JS.get (Store.inferenceResults (store w)) (scanned w offset i) = Some s ->
                  is_scene_break s = false) ->
  skipToScene offset w = Some (JS.Normal w).
Proof.
  intros H. unfold skipToScene.
  destruct (videoPlayer w) as [v|]; [|reflexivity].
  destruct (JS.len _ =? 0)%Z; [reflexivity|].
  unfold scanned in H. set (results := Store.inferenceResults (store w)) in *.
  set (idx := (Store.currentShotIndex (store w) + offset)%Z) in *.
  replace (idx + direction offset * Z.of_nat 0)%Z with idx in H by lia.
  destruct (sceneScan (S (length results)) results offset idx) as [i shot| | |] eqn:E.
  - exfalso. destruct (sceneScan_found_on_walk _ _ _ _ _ _ E) as (n & -> & Hget & Hb).
    destruct H as [H|[H|H]].
    + simpl in E. destruct (Z.leb_spec 0 idx) as [Hle|Hle]; [lia|discriminate].
    + simpl in E. destruct (Z.ltb_spec idx (JS.len results)) as [Hlt|Hlt]; [lia|].
      rewrite andb_false_r in E. discriminate.
    + rewrite (H n shot Hget) in Hb. discriminate.
  - reflexivity.
  - exfalso.
    destruct (NavigationFacts.sceneScan_ends results offset (S (length results)) idx)
      as [E'|(i' & shot & E' & _)]; try congruence; [lia|].
    intros Hr. unfold JS.len in *. destruct (0 <? offset)%Z; lia.
  - exfalso.
    destruct (NavigationFacts.sceneScan_ends results offset (S (length results)) idx)
      as [E'|(i' & shot & E' & _)]; try congruence; [lia|].
    intros Hr. unfold JS.len in *. destruct (0 <? offset)%Z; lia.
Qed.

Lemma skipToScene_without_break_is_noop_witness :
  skipToScene (-1) (Samples.viewer (firstn 1 Samples.five_shots) 2 true)
  = Some (JS.Normal (Samples.viewer (firstn 1 Samples.five_shots) 2 true)).
Proof.
  apply (skipToScene_without_break_is_noop (-1)
           (Samples.viewer (firstn 1 Samples.five_shots) 2 true)).
  right. left. vm_compute. discriminate.
Defined.

(** The page after the time handler has selected the shot [shot] at
    [idx]. *)
Lemma timeupdate_handler_selects (w : Page) (v : VideoElement) (idx : Z) (shot : Shot) :
  videoPlayer w = Some v ->
  activeShotAt (currentTime v) (Store.inferenceResults (store w)) = idx ->
  JS.get (Store.inferenceResults (store w)) idx = Some shot ->
  idx <> Store.currentShotIndex (store w) ->
  exists w',
    timeupdate_handler w = JS.Normal w'
    /\ store w' = Store.set_currentShotIndex idx (store w)
    /\ video_el w' = video_el w /\ bound w' = bound w /\ shotGrid w' = shotGrid w
    /\ highlighted w' = highlighted w ++ [shot_id shot]
    /\ overlay w' = match overlay w with
                    | Some _ => Some (mkOverlay (shot_id shot) true)
                    | None => None
                    end.
Proof.
  intros Hv Hidx Hget Hne. unfold timeupdate_handler. rewrite Hv, Hidx.
  pose proof (get_some_range _ _ _ Hget) as Hr.
  destruct (Z.eqb_spec idx (-1)); [lia|].
  destruct (Z.eqb_spec idx (Store.currentShotIndex (store w))); [contradiction|].
  simpl. rewrite Hget. unfold overlay. simpl.
  destruct (bound w) eqn:Hb; [destruct (overlay_el w) eqn:Ho|];
    eexists; (split; [reflexivity|]); simpl; rewrite ?Hb, ?Ho; repeat split.
Qed.

Lemma timeupdate_handler_keeps (w : Page) (v : VideoElement) :
  videoPlayer w = Some v ->
  activeShotAt (currentTime v) (Store.inferenceResults (store w)) = (-1)%Z
  \/ activeShotAt (currentTime v) (Store.inferenceResults (store w))
     = Store.currentShotIndex (store w) ->
  timeupdate_handler w = JS.Normal w.
Proof.
  intros Hv H. unfold timeupdate_handler. rewrite Hv.
  destruct H as [-> | ->]; [reflexivity|].
  rewrite Z.eqb_refl. simpl. now rewrite andb_false_r.
Qed.

(** X5.  What a time sync does.  With the handler attached, when the
    playhead reaches [t]: if no shot holds [t] the page is left as it is
    but for the playhead (cursor, selection and overlay stay on the
    previous shot); if the first shot holding [t] is the one at the cursor
    nothing else changes either; otherwise the cursor takes the index of
    that shot, one selection-changed notification carries its identifier,
    and the overlay, if the page has one, shows that identifier. *)
Theorem playhead_reaches_selects (t : Q) (w : Page) (v : VideoElement) :
  videoPlayer w = Some v ->
  ontimeupdate v = true ->
  let moved := set_video (set_currentTime t v) w in
  let idx := activeShotAt t (Store.inferenceResults (store w)) in
  (idx = (-1)%Z \/ idx = Store.currentShotIndex (store w) ->
   playhead_reaches t w = JS.Normal moved)
  /\ (idx <> (-1)%Z -> idx <> Store.currentShotIndex (store w) ->
      exists shot w',
        JS.get (Store.inferenceResults (store w)) idx = Some shot
        /\ playhead_reaches t w = JS.Normal w'
        /\ Store.currentShotIndex (store w') = idx
        /\ Store.inferenceResults (store w') = Store.inferenceResults (store w)
        /\ highlighted w' = highlighted w ++ [shot_id shot]
        /\ overlay w' = match overlay w with
                        | Some _ => Some (mkOverlay (shot_id shot) true)
                        | None => None
                        end).
Proof.
  intros Hv Hatt moved idx.
  destruct (NavigationFacts.videoPlayer_some w v Hv) as [Hb Hel].
  assert (Hmoved : videoPlayer moved = Some (set_currentTime t v)).
  { unfold videoPlayer, moved. simpl. now rewrite Hb. }
  assert (Hfire : playhead_reaches t w = timeupdate_handler moved).
  { unfold playhead_reaches. rewrite Hel. unfold fire_timeupdate. simpl video_el.
    cbv iota beta. change (ontimeupdate (set_currentTime t v)) with (ontimeupdate v).
    now rewrite Hatt. }
  rewrite Hfire. split.
  - intros H. apply (timeupdate_handler_keeps moved _ Hmoved). exact H.
  - intros Hfound Hne.
    destruct (NavigationFacts.activeShotAt_range t (Store.inferenceResults (store w)))
      as [R|R]; [contradiction|].
    destruct (NavigationFacts.get_in_range _ _ R) as [shot Hget].
    destruct (timeupdate_handler_selects moved _ idx shot Hmoved eq_refl Hget Hne)
      as (w' & Hret & Hstore & _ & _ & _ & Hhl & Hov).
    exists shot, w'. split; [exact Hget|]. split; [exact Hret|].
    rewrite Hstore. simpl. repeat split; assumption.
Qed.

Lemma playhead_reaches_selects_witness :
  exists shot w',
    JS.get Samples.five_shots 2 = Some shot
    /\ playhead_reaches 5 (Samples.viewer Samples.five_shots 0 false) = JS.Normal w'
    /\ Store.currentShotIndex (store w') = 2%Z
    /\ highlighted w' = [shot_id shot].
Proof.
  destruct (proj2 (playhead_reaches_selects 5 (Samples.viewer Samples.five_shots 0 false)
                     _ eq_refl eq_refl))
    as (shot & w' & Hget & Hret & Hcur & _ & Hhl & _).
  - discriminate.
  - discriminate.
  - exists shot, w'. repeat split; assumption.
Defined.

(** X6.  A time sync is idempotent: when the browser fires [timeupdate]
    again with the playhead where it was, nothing changes and no second
    notification is emitted. *)
Theorem fire_timeupdate_idempotent (w : Page) :
  Session.settle (fire_timeupdate (Session.settle (fire_timeupdate w)))
  = Session.settle (fire_timeupdate w).
Proof.
  unfold fire_timeupdate at 2 3.
  destruct (video_el w) as [v|] eqn:Hel; [|simpl; unfold fire_timeupdate; now rewrite Hel].
  destruct (ontimeupdate v) eqn:Hatt;
    [|simpl; unfold fire_timeupdate; now rewrite Hel, Hatt].
  destruct (videoPlayer w) as [v0|] eqn:Hv.
  - assert (v0 = v).
    { destruct (NavigationFacts.videoPlayer_some w v0 Hv) as [_ H]. congruence. }
    subst v0.
    set (idx := activeShotAt (currentTime v) (Store.inferenceResults (store w))).
    destruct (Z.eq_dec idx (-1)) as [E|E];
      [|destruct (Z.eq_dec idx (Store.currentShotIndex (store w))) as [E'|E']].
    + rewrite (timeupdate_handler_keeps w v Hv (or_introl E)). simpl.
      unfold fire_timeupdate. rewrite Hel, Hatt.
      now rewrite (timeupdate_handler_keeps w v Hv (or_introl E)).
    + rewrite (timeupdate_handler_keeps w v Hv (or_intror E')). simpl.
      unfold fire_timeupdate. rewrite Hel, Hatt.
      now rewrite (timeupdate_handler_keeps w v Hv (or_intror E')).
    + destruct (NavigationFacts.activeShotAt_range
                  (currentTime v) (Store.inferenceResults (store w)))
        as [R|R]; [contradiction|].
      destruct (NavigationFacts.get_in_range _ _ R) as [shot Hget].
      destruct (timeupdate_handler_selects w v idx shot Hv eq_refl Hget E')
        as (w' & Hret & Hstore & Hvid & Hbound & _).
      rewrite Hret. simpl Session.settle.
      unfold fire_timeupdate. rewrite Hvid, Hel, Hatt.
      assert (Hv' : videoPlayer w' = Some v).
      { unfold videoPlayer. rewrite Hbound, Hvid.
        destruct (NavigationFacts.videoPlayer_some w v Hv) as [-> _]. exact Hel. }
      rewrite (timeupdate_handler_keeps w' v Hv'); [reflexivity|].
      right. rewrite Hstore. reflexivity.
  - rewrite (NavigationFacts.timeupdate_handler_unbound w Hv). simpl.
    unfold fire_timeupdate. rewrite Hel, Hatt.
    now rewrite (NavigationFacts.timeupdate_handler_unbound w Hv).
Qed.

(** X7.  Seek then sync.  For separated shots, a seek to the shot at index
    [k] followed by the time sync of that seek brings the cursor to [k];
    the selection-changed notification is emitted by the seek when the
    player is paused and by the sync when [k] was not the cursor already
    (so twice for a paused player whose cursor was elsewhere, and not at
    all for a playing one whose cursor was already at [k]). *)
Theorem seekToShot_then_sync_selects
        (shot : Shot) (k : nat) (w : Page) (v : VideoElement) :
  videoPlayer w = Some v ->
  ontimeupdate v = true ->
  separated (Store.inferenceResults (store w)) ->
  nth_error (Store.inferenceResults (store w)) k = Some shot ->
  exists w',
    fire_timeupdate (seekToShot shot w) = JS.Normal w'
    /\ Store.currentShotIndex (store w') = Z.of_nat k
    /\ Store.inferenceResults (store w') = Store.inferenceResults (store w)
    /\ highlighted w'
       = highlighted w
         ++ (if paused v then [shot_id shot] else [])
         ++ (if (Z.of_nat k =? Store.currentShotIndex (store w))%Z then []
             else [shot_id shot]).
Proof.
  intros Hv Hatt Hsep Hk.
  destruct (NavigationFacts.videoPlayer_some w v Hv) as [Hb Hel].
  unfold seekToShot. rewrite Hv.
  destruct (NavigationFacts.jump_frame v shot w) as (Hstore & Hvideo & _ & Hbound & Hhl).
  set (w1 := jump v shot w) in *.
  set (v1 := set_currentTime (start_time shot) v) in *.
  assert (Hv1 : videoPlayer w1 = Some v1).
  { unfold videoPlayer. now rewrite Hbound, Hb, Hvideo. }
  assert (Hidx : activeShotAt (currentTime v1) (Store.inferenceResults (store w1))
                 = Z.of_nat k).
  { rewrite Hstore. unfold activeShotAt, JS.findIndex. subst v1. simpl currentTime.
    now rewrite (NavigationFacts.findIndex_start_of _ k shot 0 Hsep Hk). }
  assert (Hget : JS.get (Store.inferenceResults (store w1)) (Z.of_nat k) = Some shot).
  { rewrite Hstore. unfold JS.get. destruct (Z.ltb_spec (Z.of_nat k) 0); [lia|].
    now rewrite Nat2Z.id. }
  unfold fire_timeupdate. rewrite Hvideo.
  change (ontimeupdate v1) with (ontimeupdate v). rewrite Hatt.
  destruct (Z.eqb_spec (Z.of_nat k) (Store.currentShotIndex (store w))) as [E|E].
  - exists w1. rewrite (timeupdate_handler_keeps w1 v1 Hv1).
    + rewrite Hstore. repeat split; auto.
      rewrite Hhl, app_nil_r. now destruct (paused v); rewrite ?app_nil_r.
    + right. now rewrite Hidx, Hstore.
  - destruct (timeupdate_handler_selects w1 v1 (Z.of_nat k) shot Hv1 Hidx Hget)
      as (w' & Hret & Hst & _ & _ & _ & Hhl' & _); [now rewrite Hstore|].
    exists w'. split; [exact Hret|]. rewrite Hst, Hstore. simpl.
    repeat split. rewrite Hhl', Hhl.
    destruct (paused v); now rewrite <- ?app_assoc, ?app_nil_r.
Qed.

Lemma seekToShot_then_sync_selects_witness :
  exists w',
    fire_timeupdate (seekToShot (Samples.sample_shot "d" 6 8 false)
                                (Samples.viewer Samples.five_shots 0 true))
    = JS.Normal w'
    /\ Store.currentShotIndex (store w') = 3%Z
    /\ highlighted w' = ["d"%string; "d"%string].
Proof.
  destruct (seekToShot_then_sync_selects
              (Samples.sample_shot "d" 6 8 false) 3
              (Samples.viewer Samples.five_shots 0 true) _ eq_refl eq_refl
              NavigationFacts.five_shots_separated eq_refl)
    as (w' & Hret & Hcur & _ & Hhl).
  exists w'. repeat split; assumption.
Defined.

End PlayerMore.

(** ** Sessions: the grid and the store *)

Module SessionMore.

Import Player Session Scenes.

Lemma jump_grid v target w : shotGrid (jump v target w) = shotGrid w.
Proof. unfold jump. destruct (paused v); reflexivity. Qed.

Lemma timeupdate_handler_grid w :
  shotGrid (settle (timeupdate_handler w)) = shotGrid w
  /\ Store.inferenceResults (store (settle (timeupdate_handler w)))
     = Store.inferenceResults (store w).
Proof.
  unfold timeupdate_handler. destruct (videoPlayer w) as [v|]; [|split; reflexivity].
  cbv zeta. destruct (_ && _); [|split; reflexivity].
  simpl JS.get. destruct (JS.get _ _); [|split; reflexivity].
  destruct (overlay _); split; reflexivity.
Qed.

Lemma exec_keeps_grid op w :
  is_load op = false -> is_reset op = false ->
  shotGrid (exec op w) = shotGrid w
  /\ Store.inferenceResults (store (exec op w)) = Store.inferenceResults (store w).
Proof.
  destruct op; simpl; try discriminate; intros _ _.
  - unfold playhead_reaches. destruct (video_el w) as [v|]; [|split; reflexivity].
    unfold fire_timeupdate. simpl video_el. cbv iota beta.
    destruct (ontimeupdate _); [|split; reflexivity].
    apply (timeupdate_handler_grid (set_video (set_currentTime t v) w)).
  - rewrite SessionFacts.skipToShot_store. split; [|reflexivity].
    unfold skipToShot. destruct (videoPlayer w) as [v|]; [|reflexivity].
    destruct (JS.len _ =? 0)%Z; [reflexivity|].
    destruct (JS.get _ _); [apply jump_grid|reflexivity].
  - unfold skipToScene. destruct (videoPlayer w) as [v|]; [|split; reflexivity].
    destruct (JS.len _ =? 0)%Z; [split; reflexivity|].
    destruct (sceneScan _ _ _ _); simpl; try (split; reflexivity).
    split; [apply jump_grid|]. now rewrite (proj1 (NavigationFacts.jump_frame v targetShot w)).
  - rewrite SessionFacts.seekToShot_store. split; [|reflexivity].
    unfold seekToShot. destruct (videoPlayer w); [apply jump_grid|reflexivity].
Qed.

Lemma initPlayer_grid source w : shotGrid (initPlayer source w) = shotGrid w.
Proof.
  unfold initPlayer. destruct (videoPlayer _); [destruct (differs _ _)|]; reflexivity.
Qed.

Lemma syncPlayer_grid w : shotGrid (syncPlayer w) = shotGrid w.
Proof. unfold syncPlayer. destruct (videoPlayer w); reflexivity. Qed.

Lemma load_grid op sessionId data w :
  op = Hydrate sessionId data \/ op = Finalize sessionId data ->
  shotGrid (exec op w) = Timeline.renderTimeline (shots data)
  /\ store (exec op w) = Store.set_session sessionId (shots data) (store w).
Proof.
  intros [-> | ->]; simpl exec.
  - rewrite SessionFacts.hydrateSession_store. split; [|reflexivity].
    unfold hydrateSession. simpl shotGrid.
    now rewrite SessionFacts.syncPlayer_store, SessionFacts.initPlayer_store.
  - rewrite SessionFacts.finalizeInference_store. split; [|reflexivity].
    unfold finalizeInference. now rewrite syncPlayer_grid, initPlayer_grid.
Qed.

(** X8.  The grid shows the loaded shots.  Both loaders
    ([hydrateSession] and [finalizeInference]) leave the grid equal to the
    rendering of the shots they put in the store, whose scenes taken
    together are those shots in order, and they record the session
    identifier; from then on every operation but the reset keeps the grid
    the rendering of the shots in the store.  The reset empties the store
    and leaves the grid as it was. *)
Theorem grid_follows_store :
  (forall op sessionId data w,
      op = Hydrate sessionId data \/ op = Finalize sessionId data ->
      grid_matches_store (exec op w)
      /\ concat (map Timeline.scene_shots (shotGrid (exec op w))) = shots data
      /\ Store.activeSessionId (store (exec op w)) = Some sessionId)
  /\ (forall ops w,
         forallb (fun op => negb (is_reset op)) ops = true ->
         grid_matches_store w -> grid_matches_store (run ops w))
  /\ (forall w, shotGrid (exec Reset w) = shotGrid w
                /\ Store.inferenceResults (store (exec Reset w)) = []).
Proof.
  split; [|split].
  - intros op sessionId data w Hop.
    destruct (load_grid op sessionId data w Hop) as [Hg Hs].
    unfold grid_matches_store. rewrite Hg, Hs. simpl. repeat split.
    apply TimelineMore.renderTimeline_concat.
  - induction ops as [|op ops IH]; intros w Hops Hw; [exact Hw|].
    simpl in Hops. apply andb_true_iff in Hops. destruct Hops as [Hop Hops].
    apply negb_true_iff in Hop. apply (IH (exec op w) Hops).
    destruct (is_load op) eqn:L.
    + destruct op; try discriminate; unfold grid_matches_store.
      * destruct (load_grid _ sessionId data w (or_introl eq_refl)) as [-> ->].
        reflexivity.
      * destruct (load_grid _ sessionId data w (or_intror eq_refl)) as [-> ->].
        reflexivity.
    + unfold grid_matches_store in *.
      destruct (exec_keeps_grid op w L Hop) as [-> ->]. exact Hw.
  - intros w. split; reflexivity.
Qed.

Lemma grid_follows_store_witness :
  grid_matches_store
    (run [TimeSync 5; SkipScene 1; Hydrate "b" Samples.session_b; Seek (Samples.sample_shot "a" 0 2 true)]
         (exec (Finalize "a" Samples.session_a) Samples.fresh_page)).
Proof.
  apply (proj1 (proj2 grid_follows_store)).
  - reflexivity.
  - apply (proj1 grid_follows_store (Finalize "a" Samples.session_a) "a"%string
                 Samples.session_a Samples.fresh_page).
    now right.
Defined.

Lemma load_attaches op sessionId data w v0 :
  op = Hydrate sessionId data \/ op = Finalize sessionId data ->
  video_el w = Some v0 ->
  exists v',
    video_el (exec op w) = Some v' /\ ontimeupdate v' = true
    /\ bound (exec op w) = true
    /\ highlighted (exec op w) = highlighted w.
Proof.
  intros [-> | ->] Hel; simpl exec.
  - unfold hydrateSession, syncPlayer, initPlayer, videoPlayer. simpl. rewrite Hel.
    destruct (differs _ _); simpl; eexists; repeat split.
  - unfold finalizeInference, syncPlayer, initPlayer, videoPlayer. simpl. rewrite Hel.
    destruct (differs _ _); simpl; eexists; repeat split.
Qed.

(** X24.  The first time sync after a load.  On a page with a video
    element, once a session is loaded by either loader, the time sync at a
    time [t] that lies in some shot brings the cursor to the first shot
    holding [t].  The selection-changed notification for that shot is
    emitted unless the cursor left by the previous session already equals
    its index: then the sync emits nothing. *)
Theorem first_sync_after_load
        (op : Op) (sessionId : string) (data : SessionData) (w : Page)
        (v0 : VideoElement) (t : Q) :
  op = Hydrate sessionId data \/ op = Finalize sessionId data ->
  video_el w = Some v0 ->
  activeShotAt t (shots data) <> (-1)%Z ->
  Store.currentShotIndex (store (exec (TimeSync t) (exec op w)))
  = activeShotAt t (shots data)
  /\ (activeShotAt t (shots data) = Store.currentShotIndex (store w) ->
      highlighted (exec (TimeSync t) (exec op w)) = highlighted w)
  /\ (activeShotAt t (shots data) <> Store.currentShotIndex (store w) ->
      exists shot,
        JS.get (shots data) (activeShotAt t (shots data)) = Some shot
        /\ highlighted (exec (TimeSync t) (exec op w)) = highlighted w ++ [shot_id shot]).
Proof.
  intros Hop Hel Hfound.
  destruct (load_attaches op sessionId data w v0 Hop Hel) as (v' & Hel' & Hatt & Hb & Hhl).
  destruct (load_grid op sessionId data w Hop) as [_ Hstore].
  set (loaded := exec op w) in *.
  set (moved := set_video (set_currentTime t v') loaded).
  assert (Hres : Store.inferenceResults (store moved) = shots data)
    by (unfold moved; simpl; now rewrite Hstore).
  assert (Hcur : Store.currentShotIndex (store moved) = Store.currentShotIndex (store w))
    by (unfold moved; simpl; now rewrite Hstore).
  assert (Hmoved : videoPlayer moved = Some (set_currentTime t v'))
    by (unfold videoPlayer, moved; simpl; now rewrite Hb).
  assert (Hsync : exec (TimeSync t) loaded = settle (timeupdate_handler moved)).
  { simpl exec. unfold playhead_reaches. rewrite Hel'. unfold fire_timeupdate.
    simpl video_el. cbv iota beta.
    change (ontimeupdate (set_currentTime t v')) with (ontimeupdate v').
    now rewrite Hatt. }
  rewrite Hsync.
  destruct (Z.eq_dec (activeShotAt t (shots data)) (Store.currentShotIndex (store w)))
    as [E|E].
  - rewrite (PlayerMore.timeupdate_handler_keeps moved _ Hmoved).
    + simpl settle. rewrite Hcur. split; [now rewrite E|].
      split; [intros _; exact Hhl|contradiction].
    + right. simpl currentTime. now rewrite Hres, Hcur.
  - destruct (NavigationFacts.activeShotAt_range t (shots data)) as [R|R];
      [contradiction|].
    destruct (NavigationFacts.get_in_range _ _ R) as [shot Hget].
    destruct (PlayerMore.timeupdate_handler_selects moved _ (activeShotAt t (shots data))
                shot Hmoved) as (w' & Hret & Hst & _ & _ & _ & Hhl' & _).
    + simpl currentTime. now rewrite Hres.
    + now rewrite Hres.
    + now rewrite Hcur.
    + rewrite Hret. simpl settle. rewrite Hst. simpl. split; [reflexivity|].
      split; [contradiction|]. intros _. exists shot. split; [exact Hget|].
      rewrite Hhl'. unfold moved. simpl. now rewrite Hhl.
Qed.

Lemma first_sync_after_load_witness :
  highlighted (exec (TimeSync 1)
                 (exec (Hydrate "b" Samples.session_b)
                       (Samples.viewer Samples.five_shots 0 false)))
  = [].
Proof.
  apply (proj1 (proj2 (first_sync_after_load (Hydrate "b" Samples.session_b) "b"%string
                         Samples.session_b (Samples.viewer Samples.five_shots 0 false)
                         _ 1 (or_introl eq_refl) eq_refl ltac:(discriminate)))).
  reflexivity.
Defined.

End SessionMore.

(** ** The console: tags, counts and runs of updates *)

Module ConsoleMore.

Import Console Events.

Local Open Scope string_scope.

Lemma includes_append_left (p s pat : string) :
  JS.includes s pat = true -> JS.includes (p ++ s) pat = true.
Proof.
  intros H. induction p as [|c p IH]; [exact H|].
  cbn [append JS.includes]. rewrite IH. apply orb_true_r.
Qed.

Lemma includes_at_head (s pat : string) :
  String.prefix pat s = true -> JS.includes s pat = true.
Proof. intros H. destruct s; cbn [JS.includes]; rewrite H; reflexivity. Qed.

(** X9.  Every line that [logConsole] builds from a single text carries a
    level tag: the text's own, or the [[CLIENT]] tag it is given. *)
Theorem finalLine_carries_level_tag (timestamp content : string) :
  hasLevelTag (finalLine timestamp content) = true
  /\ (hasLevelTag content = false ->
      JS.includes (finalLine timestamp content) "[CLIENT]" = true)
  /\ (hasLevelTag content = true ->
      finalLine timestamp content = "[" ++ timestamp ++ "] " ++ content).
Proof.
  unfold finalLine. destruct (hasLevelTag content) eqn:T.
  - split; [|split; [discriminate|reflexivity]].
    unfold hasLevelTag in *. apply existsb_exists in T. destruct T as (tag & Hin & Htag).
    apply existsb_exists. exists tag. split; [exact Hin|].
    apply (includes_append_left "[" (timestamp ++ "] " ++ content)).
    apply includes_append_left. now apply (includes_append_left "] ").
  - assert (H : JS.includes ("[" ++ timestamp ++ "] [CLIENT] " ++ content) "[CLIENT]" = true).
    { apply (includes_append_left "[" (timestamp ++ "] [CLIENT] " ++ content)).
      apply includes_append_left.
      apply (includes_append_left "] " ("[CLIENT] " ++ content)).
      apply includes_at_head. reflexivity. }
    split; [|split; [intros _; exact H|discriminate]].
    unfold hasLevelTag. simpl existsb. simpl in H. now rewrite H.
Qed.

Lemma finalLine_carries_level_tag_witness :
  JS.includes (finalLine "12:00:00" "Dispatching multimodal payload...") "[CLIENT]" = true.
Proof.
  apply (proj1 (proj2 (finalLine_carries_level_tag "12:00:00"
                         "Dispatching multimodal payload..."))).
  reflexivity.
Defined.

Section WithDOM.

Variable html_text : string -> string.

Lemma renderStyledLine_event container rawLine forceSuccess forceError :
  event_line (snd (renderStyledLine html_text container rawLine forceSuccess forceError))
  = rawLine.
Proof.
  rewrite ConsoleFacts.renderStyledLine_eq. destruct (replaces _ _ _); reflexivity.
Qed.

Lemma renderStyledLine_children container rawLine forceSuccess forceError :
  length (fst (renderStyledLine html_text container rawLine forceSuccess forceError))
  = (length container
     + if is_append (snd (renderStyledLine html_text container rawLine
                                           forceSuccess forceError))
       then 1 else 0)%nat.
Proof.
  rewrite ConsoleFacts.renderStyledLine_eq. unfold replaces.
  pose proof (ConsoleFacts.lastElementChild_inv container) as Hinv.
  destruct (lastElementChild container) as [l|].
  - destruct (_ || _); simpl.
    + remember (removelast container) as init eqn:Hi. clear Hi. subst container.
      rewrite ConsoleFacts.set_last_innerHTML_snoc, !length_app. simpl. lia.
    + rewrite length_app. simpl. lia.
  - simpl. rewrite length_app. simpl. lia.
Qed.

(** The events of a snapshot call are the lines beyond the count. *)
Lemma logConsole_snapshot_lines timestamp isSuccess isError (c : t) lines content :
  consoleLog c = Some lines ->
  map event_line (snd (logConsole html_text timestamp (Snapshot content)
                                  isSuccess isError c))
  = skipn (lastRenderedLogCount c) content.
Proof.
  intros Hc. unfold logConsole. rewrite Hc.
  destruct (Nat.eqb_spec (length (skipn (lastRenderedLogCount c) content)) 0) as [E|E].
  - apply length_zero_iff_nil in E. now rewrite E.
  - pose proof (ConsoleFacts.renderLines_events html_text
                  (skipn (lastRenderedLogCount c) content) lines) as [H _].
    destruct (renderLines html_text lines _); exact H.
Qed.

(** X10.  A single-text log renders exactly one line, the stamped and
    tagged text, and leaves the snapshot count alone, so the next snapshot
    still renders exactly its lines beyond that count: text logs between
    two polls neither hide nor repeat snapshot lines. *)
Theorem logConsole_text_keeps_snapshot_count
        (timestamp timestamp' text : string) (isSuccess isError : bool)
        (c : t) (lines : list LogLine) (content : list string) :
  consoleLog c = Some lines ->
  map event_line (snd (logConsole html_text timestamp (Text text) isSuccess isError c))
  = [finalLine timestamp text]
  /\ lastRenderedLogCount
       (fst (logConsole html_text timestamp (Text text) isSuccess isError c))
     = lastRenderedLogCount c
  /\ map event_line
         (snd (logConsole html_text timestamp' (Snapshot content) false false
                 (fst (logConsole html_text timestamp (Text text) isSuccess isError c))))
     = skipn (lastRenderedLogCount c) content.
Proof.
  intros Hc.
  assert (Hshape : exists lines' ev,
             logConsole html_text timestamp (Text text) isSuccess isError c
             = (mk (lastRenderedLogCount c) (Some lines'), [ev])
             /\ event_line ev = finalLine timestamp text).
  { unfold logConsole. rewrite Hc.
    pose proof (renderStyledLine_event lines (finalLine timestamp text)
                  isSuccess isError) as Hev.
    destruct (renderStyledLine html_text lines _ isSuccess isError) as [lines' ev].
    exists lines', ev. split; [reflexivity|exact Hev]. }
  destruct Hshape as (lines' & ev & -> & Hev). simpl fst. simpl snd.
  split; [simpl; now rewrite Hev|]. split; [reflexivity|].
  apply (logConsole_snapshot_lines timestamp' false false
           (mk (lastRenderedLogCount c) (Some lines')) lines' content eq_refl).
Qed.

Lemma clearConsole_restarts_snapshots_lines
      (timestamp : string) (c : t) (lines : list LogLine) (content : list string) :
  consoleLog c = Some lines ->
  map event_line (snd (logConsole html_text timestamp (Snapshot content) false false
                                  (clearConsole c)))
  = content.
Proof.
  intros Hc. unfold clearConsole. rewrite Hc.
  apply (logConsole_snapshot_lines timestamp false false (mk 0 (Some [])) []
           content eq_refl).
Qed.

(** X11.  After [clearConsole] the console is empty and the next snapshot
    is rendered from its first line: every line of it gives one event, and
    the count becomes its length. *)
Theorem clearConsole_restarts_snapshots
        (timestamp : string) (c : t) (lines : list LogLine) (content : list string) :
  consoleLog c = Some lines ->
  clearConsole c = mk 0 (Some [])
  /\ map event_line (snd (logConsole html_text timestamp (Snapshot content) false false
                                     (clearConsole c)))
     = content
  /\ lastRenderedLogCount
       (fst (logConsole html_text timestamp (Snapshot content) false false
                        (clearConsole c)))
     = length content.
Proof.
  intros Hc. unfold clearConsole. rewrite Hc. split; [reflexivity|]. split.
  - apply (logConsole_snapshot_lines timestamp false false (mk 0 (Some [])) []
             content eq_refl).
  - unfold logConsole. simpl consoleLog. cbv iota. simpl skipn.
    destruct content as [|line rest]; [reflexivity|].
    simpl Nat.eqb. cbv iota. now destruct (renderLines html_text [] (line :: rest)).
Qed.

(** X12.  Rendering new lines gives one event per line, and the console
    grows by the number of append events: its number of children is the
    old number plus the new lines that were not merged into the line
    before them. *)
Theorem renderLines_children_count (container : list LogLine) (newLines : list string) :
  length (snd (renderLines html_text container newLines)) = length newLines
  /\ length (fst (renderLines html_text container newLines))
     = (length container
        + count_appends (snd (renderLines html_text container newLines)))%nat
  /\ (count_appends (snd (renderLines html_text container newLines))
      <= length newLines)%nat.
Proof.
  unfold count_appends. revert container.
  induction newLines as [|line rest IH]; intros container; simpl.
  - repeat split; lia.
  - pose proof (renderStyledLine_children container line false false) as Hc.
    destruct (renderStyledLine html_text container line false false) as [container1 ev].
    destruct (IH container1) as (H1 & H2 & H3).
    destruct (renderLines html_text container1 rest) as [container2 evs].
    simpl in *. destruct (is_append ev); simpl; repeat split; lia.
Qed.

(** X13.  A run of updates collapses.  When the last rendered line carries
    a replaceable category and every new line carries the same category,
    in its raw text and in the text of its markup, the whole run is merged
    into that line: no line is appended, the lines before it are
    untouched, and the line shows the last update with the colour it
    had. *)
Theorem run_of_updates_collapses
        (category : Category) (init : list LogLine) (lastLine : LogLine)
        (newLines : list string) :
  carries category (textContent html_text lastLine) = true ->
  Forall (fun raw => carries category raw = true
                     /\ carries category (html_text (style raw)) = true) newLines ->
  fst (renderLines html_text (init ++ [lastLine]) newLines)
  = (init ++ [mkLine (last (map style newLines) (innerHTML lastLine))
                     (style_color lastLine)])%list
  /\ count_appends (snd (renderLines html_text (init ++ [lastLine]) newLines)) = 0%nat.
Proof.
  unfold count_appends. revert lastLine.
  induction newLines as [|raw rest IH]; intros lastLine Hlast Hall.
  - simpl. destruct lastLine. split; reflexivity.
  - inversion Hall as [|? ? [Hraw Htext] Hrest]; subst.
    cbn [renderLines].
    assert (Hrep : replaces html_text (init ++ [lastLine]) raw = true).
    { apply ConsoleFacts.replaces_iff. exists category, lastLine.
      repeat split; auto. apply ConsoleFacts.lastElementChild_snoc. }
    rewrite ConsoleFacts.renderStyledLine_eq, Hrep.
    rewrite ConsoleFacts.set_last_innerHTML_snoc.
    destruct (IH (mkLine (style raw) (style_color lastLine))) as [H1 H2];
      [exact Htext|exact Hrest|].
    destruct (renderLines html_text _ rest) as [container2 evs].
    simpl fst in *. simpl snd in *. split; [|exact H2]. rewrite H1.
    simpl innerHTML. simpl style_color. do 3 f_equal.
    clear. destruct rest as [|s rest]; [reflexivity|].
    change (map style (raw :: s :: rest)) with (style raw :: map style (s :: rest)).
    cbn [last map]. generalize (style raw) (innerHTML lastLine) (style s).
    induction (map style rest) as [|x l IHl]; intros d d' y; [reflexivity|].
    cbn [last]. apply IHl.
Qed.

Lemma skipn_exact {A} (a b : list A) : skipn (length a) (a ++ b) = b.
Proof. induction a as [|x a IH]; [reflexivity|exact IH]. Qed.

Lemma last_cons_shift {A} (rest : list A) :
  forall x d, last (x :: rest) d = last rest x.
Proof.
  induction rest as [|y l IH]; intros x d; [reflexivity|].
  change (last (x :: y :: l) d) with (last (y :: l) d).
  now rewrite !IH.
Qed.

Lemma growing_last (rest : list (list string)) :
  forall previous, growing previous rest ->
                   exists tail, last rest previous = (previous ++ tail)%list.
Proof.
  induction rest as [|content rest IH]; intros previous Hg.
  - exists []. simpl. now rewrite app_nil_r.
  - destruct Hg as [[more ->] Hg]. rewrite last_cons_shift.
    destruct (IH _ Hg) as [tail ->]. exists (more ++ tail)%list.
    now rewrite app_assoc.
Qed.

Lemma logConsole_snapshot_count timestamp isSuccess isError (c : t) lines content :
  consoleLog c = Some lines ->
  (lastRenderedLogCount c <= length content)%nat ->
  lastRenderedLogCount
    (fst (logConsole html_text timestamp (Snapshot content) isSuccess isError c))
  = length content
  /\ exists lines',
      consoleLog (fst (logConsole html_text timestamp (Snapshot content)
                                  isSuccess isError c)) = Some lines'.
Proof.
  intros Hc Hle. unfold logConsole. rewrite Hc.
  destruct (Nat.eqb_spec (length (skipn (lastRenderedLogCount c) content)) 0) as [E|E].
  - rewrite length_skipn in E. simpl. split; [lia|eauto].
  - destruct (renderLines html_text lines _). simpl. eauto.
Qed.

Lemma feed_growing timestamp (snapshots : list (list string)) :
  forall (c : t) lines previous,
    consoleLog c = Some lines ->
    lastRenderedLogCount c = length previous ->
    growing previous snapshots ->
    map event_line (snd (feed html_text timestamp snapshots c))
    = skipn (length previous) (last snapshots previous).
Proof.
  induction snapshots as [|content rest IH]; intros c lines previous Hc Hn Hg.
  - simpl. now rewrite skipn_all.
  - destruct Hg as [[more ->] Hg]. cbn [feed].
    pose proof (logConsole_snapshot_lines timestamp false false c lines
                  (previous ++ more)%list Hc) as Hev.
    destruct (logConsole_snapshot_count timestamp false false c lines (previous ++ more)%list Hc)
      as [Hcount [lines' Hlines']]; [rewrite Hn, length_app; lia|].
    destruct (logConsole html_text timestamp (Snapshot (previous ++ more)%list) false false c)
      as [c1 events1].
    simpl fst in *. simpl snd in *.
    specialize (IH c1 lines' (previous ++ more)%list Hlines' Hcount Hg).
    destruct (feed html_text timestamp rest c1) as [c2 events2]. simpl snd in *.
    rewrite map_app, Hev, IH, Hn, last_cons_shift.
    destruct (growing_last rest (previous ++ more)%list Hg) as [tail ->].
    rewrite !skipn_exact. rewrite <- app_assoc. now rewrite skipn_exact.
Qed.

(** X23.  Growing snapshots are rendered line by line, once.  When the
    [logs] arrays of successive polls each extend the one before, feeding
    them to a console that has rendered none of them renders, over all the
    polls, exactly the lines of the last array, in order: no line is lost
    and none is rendered twice, however the lines are spread over the
    polls and however often an array is repeated. *)
Theorem growing_snapshots_render_once
        (timestamp : string) (snapshots : list (list string))
        (c : t) (lines : list LogLine) :
  consoleLog c = Some lines ->
  lastRenderedLogCount c = 0%nat ->
  growing [] snapshots ->
  map event_line (snd (feed html_text timestamp snapshots c)) = last snapshots [].
Proof.
  intros Hc Hn Hg.
  apply (feed_growing timestamp snapshots c lines [] Hc Hn Hg).
Qed.

End WithDOM.

Lemma logConsole_text_keeps_snapshot_count_witness :
  map event_line
      (snd (logConsole strip_tags "12:00:05" (Snapshot Samples.streaming_snapshot)
              false false
              (fst (logConsole strip_tags "12:00:04" (Text "Dispatching") false false
                               Samples.streaming_console))))
  = skipn 1 Samples.streaming_snapshot.
Proof.
  apply (logConsole_text_keeps_snapshot_count strip_tags "12:00:04" "12:00:05"
           "Dispatching" false false Samples.streaming_console _
           Samples.streaming_snapshot eq_refl).
Defined.

Lemma growing_snapshots_render_once_witness :
  map event_line
      (snd (feed strip_tags "12:00:05"
                 [firstn 1 Samples.streaming_snapshot; firstn 1 Samples.streaming_snapshot;
                  Samples.streaming_snapshot]
                 Samples.empty_console))
  = Samples.streaming_snapshot.
Proof.
  apply (growing_snapshots_render_once strip_tags "12:00:05"
           [firstn 1 Samples.streaming_snapshot; firstn 1 Samples.streaming_snapshot;
            Samples.streaming_snapshot]
           Samples.empty_console [] eq_refl eq_refl).
  simpl. repeat split.
  - now exists ["[12:00:01] [TOKEN] Thinking... a"].
  - now exists [].
  - now exists ["[12:00:02] [TOKEN] Thinking... ab"; "[12:00:03] [VLM] done"].
Defined.

Lemma clearConsole_restarts_snapshots_witness :
  map event_line
      (snd (logConsole strip_tags "12:00:05" (Snapshot Samples.streaming_snapshot)
                       false false (clearConsole Samples.streaming_console)))
  = Samples.streaming_snapshot.
Proof.
  apply (clearConsole_restarts_snapshots strip_tags "12:00:05"
           Samples.streaming_console _ Samples.streaming_snapshot eq_refl).
Defined.

Lemma run_of_updates_collapses_witness :
  fst (renderLines strip_tags
         ([] ++ [mkLine (style "[12:00:01] [SHOT_DETECT] Boundary detection at frame 10") None])
         ["[12:00:02] [SHOT_DETECT] Boundary detection at frame 20";
          "[12:00:03] [SHOT_DETECT] Boundary detection at frame 30"])
  = ([] ++ [mkLine
              (last (map style
                         ["[12:00:02] [SHOT_DETECT] Boundary detection at frame 20";
                          "[12:00:03] [SHOT_DETECT] Boundary detection at frame 30"])
                    (innerHTML
                       (mkLine (style "[12:00:01] [SHOT_DETECT] Boundary detection at frame 10")
                               None)))
              (style_color
                 (mkLine (style "[12:00:01] [SHOT_DETECT] Boundary detection at frame 10")
                         None))])%list
  /\ count_appends
       (snd (renderLines strip_tags
               ([] ++ [mkLine (style "[12:00:01] [SHOT_DETECT] Boundary detection at frame 10")
                              None])
               ["[12:00:02] [SHOT_DETECT] Boundary detection at frame 20";
                "[12:00:03] [SHOT_DETECT] Boundary detection at frame 30"])) = 0%nat.
Proof.
  refine (run_of_updates_collapses strip_tags BoundaryScan []
            (mkLine (style "[12:00:01] [SHOT_DETECT] Boundary detection at frame 10") None)
            ["[12:00:02] [SHOT_DETECT] Boundary detection at frame 20";
             "[12:00:03] [SHOT_DETECT] Boundary detection at frame 30"] _ _).
  - vm_compute. reflexivity.
  - repeat constructor; vm_compute; reflexivity.
Defined.

End ConsoleMore.

(** ** The view facade *)

Module ViewMore.

Import View.

(** X14.  After [toggleViewState(state)] the view of [state], if the page
    has it, is the only active view.  The console survives the switch to
    the processing and results views, so a snapshot fed afterwards still
    renders only its lines beyond the count; the switch to the
    configuration view clears it, so the next snapshot is rendered from its
    first line. *)
Theorem toggleViewState_one_view_and_console
        (html_text : string -> string) (timestamp : string)
        (state : ViewState) (ui : UI) (lines : list Console.LogLine)
        (content : list string) :
  Console.consoleLog (console ui) = Some lines ->
  view_of state (toggleViewState state ui) = add_class (view_of state ui)
  /\ (forall other, view_of other (toggleViewState state ui) = Some true -> other = state)
  /\ map Console.event_line
         (snd (Console.logConsole html_text timestamp (Console.Snapshot content)
                                  false false (console (toggleViewState state ui))))
     = match state with
       | config => content
       | _ => skipn (Console.lastRenderedLogCount (console ui)) content
       end.
Proof.
  intros Hc. split; [|split].
  - destruct state; simpl;
      destruct (configView ui), (processingView ui), (resultsView ui); reflexivity.
  - intros other. destruct state, other; simpl; try reflexivity;
      destruct (configView ui), (processingView ui), (resultsView ui); simpl;
      discriminate.
  - destruct state.
    + simpl console.
      apply (ConsoleMore.clearConsole_restarts_snapshots_lines html_text timestamp
               (console ui) lines content Hc).
    + simpl console.
      apply (ConsoleMore.logConsole_snapshot_lines html_text timestamp false false
               (console ui) lines content Hc).
    + simpl console.
      apply (ConsoleMore.logConsole_snapshot_lines html_text timestamp false false
               (console ui) lines content Hc).
Qed.

Lemma toggleViewState_one_view_and_console_witness :
  map Console.event_line
      (snd (Console.logConsole Console.strip_tags "12:00:09"
              (Console.Snapshot Samples.streaming_snapshot) false false
              (console (toggleViewState config
                          (mkUI (Some false) (Some true) (Some false) (Some true)
                                (Some true) Samples.streaming_console (Some Placeholder))))))
  = Samples.streaming_snapshot.
Proof.
  apply (toggleViewState_one_view_and_console Console.strip_tags "12:00:09" config
           (mkUI (Some false) (Some true) (Some false) (Some true) (Some true)
                 Samples.streaming_console (Some Placeholder))
           _ Samples.streaming_snapshot eq_refl).
Defined.

Lemma act_keeps_button (a : Action) (ui : UI) :
  button_follows_panel ui -> button_follows_panel (act a ui).
Proof.
  unfold button_follows_panel.
  destruct a as [| |state].
  - cbn [act]. unfold toggleDebugPanel.
    destruct (debugPanel ui) as [active|] eqn:Ep; cbn [fst debugPanel debugBtn].
    + destruct (debugBtn ui) as [primary|]; cbn [option_map]; auto.
    + rewrite Ep. auto.
  - cbn [act hideDebugPanel debugPanel debugBtn].
    destruct (debugPanel ui), (debugBtn ui); cbn [remove_class option_map]; auto.
  - destruct state; cbn [act]; unfold toggleViewState, resetInspector, set_console,
      hideDebugPanel; cbn [debugPanel debugBtn];
      destruct (debugPanel ui), (debugBtn ui); cbn [remove_class option_map]; auto.
Qed.

(** X15.  The debug button follows the debug panel: through any sequence of
    panel toggles, panel hidings and view switches the button is
    highlighted exactly when the panel is open; a toggle returns the new
    state of the panel (false when the page has no panel), two toggles
    restore it, and every view switch but the one to the results closes
    the panel. *)
Theorem debug_button_follows_panel (actions : list Action) (ui : UI) :
  button_follows_panel ui ->
  button_follows_panel (fold_left (fun u a => act a u) actions ui)
  /\ debugPanel (fst (toggleDebugPanel ui))
     = option_map (fun _ => snd (toggleDebugPanel ui)) (debugPanel ui)
  /\ (debugPanel ui = None -> toggleDebugPanel ui = (ui, false))
  /\ debugPanel (act Toggle (act Toggle ui)) = debugPanel ui
  /\ (forall state, state <> results ->
                    debugPanel (act (SwitchTo state) ui) = remove_class (debugPanel ui)).
Proof.
  intros H. split; [|split; [|split; [|split]]].
  - revert ui H. induction actions as [|a actions IH]; intros ui H; [exact H|].
    simpl. apply IH. now apply act_keeps_button.
  - unfold toggleDebugPanel. destruct (debugPanel ui) as [active|] eqn:Ep;
      cbn [fst snd debugPanel option_map]; [reflexivity|exact Ep].
  - intros Hp. unfold toggleDebugPanel. now rewrite Hp.
  - simpl. unfold toggleDebugPanel. destruct (debugPanel ui) as [active|] eqn:E; simpl.
    + now rewrite negb_involutive.
    + now rewrite E.
  - intros state Hs. destruct state; simpl; try contradiction;
      destruct (debugPanel ui); reflexivity.
Qed.

Lemma debug_button_follows_panel_witness :
  button_follows_panel
    (fold_left (fun u a => act a u) [Toggle; SwitchTo results; Toggle; SwitchTo processing]
               (mkUI (Some true) (Some false) (Some false) (Some false) (Some false)
                     Samples.empty_console (Some Placeholder))).
Proof.
  apply (debug_button_follows_panel [Toggle; SwitchTo results; Toggle; SwitchTo processing]
           (mkUI (Some true) (Some false) (Some false) (Some false) (Some false)
                 Samples.empty_console (Some Placeholder))).
  reflexivity.
Defined.

End ViewMore.

(** ** The inference manager: submission, abort, terminal ticks *)

Module PollerMore.

Import Poller Effects.

Local Open Scope string_scope.

(** Without a running interval and without a task to abort, nothing that
    happens changes the manager. *)
Lemma run_idle (events : list Event) (p : t) :
  interval p = None -> currentTaskId p = None -> run events p = p.
Proof.
  intros Hi Hc. induction events as [|e events IH]; [reflexivity|].
  rewrite PollerFacts.run_cons.
  assert (He : handle e p = p).
  { destruct e as [o|failure]; simpl.
    - now rewrite Hi.
    - unfold handleAbort. now rewrite Hc. }
  now rewrite He.
Qed.

Lemma startInference_submitted (modes : list string) (taskId : string) (now : Z) (p : t) :
  startInference true modes (inl taskId) now p
  = mk (Some taskId) (Some (taskId, now + POLLING_INTERVAL)%Z)
       (trace p ++ [UpdateProgressBar 0; announcement modes; TriggerInferenceApi]).
Proof.
  unfold startInference, pollStatus, emit, announcement. simpl.
  destruct modes; reflexivity.
Qed.

(** X16.  Submission, from a manager with no interval running.  Without a
    video [startInference] does nothing at all.  With one it resets the
    progress bar, announces the dispatch and submits once; on success the
    task becomes the one that can be aborted and the first poll is due one
    polling interval later; on a submission error it logs the [[FATAL]]
    message as an error and stays idle: no poll is ever issued and no
    abort request can be sent. *)
Theorem startInference_outcomes
        (modes : list string) (submission : string + string) (now : Z) (p : t) :
  interval p = None ->
  startInference false modes submission now p = p
  /\ (forall taskId,
         submission = inl taskId ->
         startInference true modes submission now p
         = mk (Some taskId) (Some (taskId, now + POLLING_INTERVAL)%Z)
              (trace p ++ [UpdateProgressBar 0; announcement modes; TriggerInferenceApi]))
  /\ (forall message,
         submission = inr message ->
         startInference true modes submission now p
         = mk None None
              (trace p ++ [UpdateProgressBar 0; announcement modes; TriggerInferenceApi;
                           LogConsole (Console.Text ("[FATAL] " ++ message)) false true])
         /\ forall events,
             run events (startInference true modes submission now p)
             = startInference true modes submission now p).
Proof.
  intros Hi. split; [reflexivity|]. split.
  - intros taskId ->. apply startInference_submitted.
  - intros message ->.
    assert (E : startInference true modes (inr message) now p
                = mk None None
                     (trace p ++ [UpdateProgressBar 0; announcement modes;
                                  TriggerInferenceApi;
                                  LogConsole (Console.Text ("[FATAL] " ++ message))
                                             false true])).
    { unfold startInference, emit, announcement. simpl. rewrite Hi, <- app_assoc.
      destruct modes; reflexivity. }
    split; [exact E|]. intros events. rewrite E. now apply run_idle.
Qed.

Lemma startInference_outcomes_witness :
  startInference true [] (inl "t1") 0%Z idle
  = mk (Some "t1") (Some ("t1", 1500%Z))
       [UpdateProgressBar 0; announcement []; TriggerInferenceApi].
Proof.
  apply (proj1 (proj2 (startInference_outcomes [] (inl "t1") 0%Z idle eq_refl)) "t1").
  reflexivity.
Defined.

(** X17.  Abort.  Without a submitted task [handleAbort] does nothing.
    With one it logs the warning and sends exactly one abort request, for
    that task, and logs an [[ERROR]] line only when the request fails; it
    changes neither the task nor the interval.  After a successful
    submission the request names the submitted task. *)
Theorem handleAbort_targets_current_task (failure : option string) (p : t) :
  (currentTaskId p = None -> handleAbort failure p = p)
  /\ (forall taskId,
         currentTaskId p = Some taskId ->
         currentTaskId (handleAbort failure p) = Some taskId
         /\ interval (handleAbort failure p) = interval p
         /\ filter is_abort (trace (handleAbort failure p))
            = (filter is_abort (trace p) ++ [AbortTaskApi taskId])%list
         /\ console_calls (trace (handleAbort failure p))
            = (console_calls (trace p)
               ++ (Console.Text "⚠️ Sending abort signal to backend...", false, true)
               :: match failure with
                  | Some message =>
                      [(Console.Text ("[ERROR] Failed to send abort signal: " ++ message),
                        false, true)]
                  | None => []
                  end)%list)
  /\ (forall modes taskId now,
         interval p = None ->
         filter is_abort
                (trace (handleAbort failure
                          (startInference true modes (inl taskId) now p)))
         = (filter is_abort (trace p) ++ [AbortTaskApi taskId])%list).
Proof.
  split; [|split].
  - intros Hc. unfold handleAbort. now rewrite Hc.
  - intros taskId Hc. unfold handleAbort. rewrite Hc.
    unfold console_calls.
    destruct failure; simpl; rewrite ?filter_app, ?flat_map_app; simpl;
      rewrite <- ?app_assoc; simpl; rewrite ?app_nil_r; auto.
  - intros modes taskId now Hi. rewrite startInference_submitted.
    unfold handleAbort. cbn [currentTaskId].
    assert (Ha : is_abort (announcement modes) = false) by (destruct modes; reflexivity).
    destruct failure; unfold emit; cbn [trace]; rewrite !filter_app;
      cbn [filter is_abort]; rewrite Ha; cbn [app]; rewrite ?app_nil_r; reflexivity.
Qed.

Lemma handleAbort_targets_current_task_witness :
  filter is_abort (trace (handleAbort (Some "timeout") Samples.polling))
  = [AbortTaskApi "t1"].
Proof.
  apply (proj1 (proj2 (proj2 (proj1 (proj2 (handleAbort_targets_current_task
                                              (Some "timeout") Samples.polling))
                                    "t1" eq_refl)))).
Defined.

Lemma tick_has_no (f : Effect -> bool) (s : Status) :
  (forall content a b, f (LogConsole content a b) = false) ->
  (forall pct, f (UpdateProgressBar pct) = false) ->
  filter f (log_part s ++ progress_part s) = [].
Proof.
  intros Hlog Hbar. apply PollerFacts.filter_none. intros e He.
  apply in_app_or in He. destruct He as [He|He].
  - destruct (PollerFacts.log_part_shape s e He) as [content ->]. apply Hlog.
  - destruct (PollerFacts.progress_part_shape s e He) as [pct ->]. apply Hbar.
Qed.

(** X18.  A tick that observes SUCCESS clears the interval first; it then
    hands the session of the result to [finalizeInference], once, or,
    when the response has no result, only warns and finalizes nothing. *)
Theorem success_tick_finalizes_or_warns (taskId : string) (s : Status) :
  state_is s "SUCCESS" = true ->
  (exists before,
      tick taskId (PollReturns s)
      = (before ++ ClearInterval ::
                match result s with
                | Some r => [FinalizeInference (session_id r)]
                | None => [ConsoleWarn]
                end)%list
      /\ filter is_clear before = [] /\ filter is_finalize before = [])
  /\ filter is_finalize (tick taskId (PollReturns s))
     = match result s with
       | Some r => [FinalizeInference (session_id r)]
       | None => []
       end.
Proof.
  intros Hs.
  assert (Hclear : filter is_clear (log_part s ++ progress_part s) = [])
    by (apply tick_has_no; reflexivity).
  assert (Hfin : filter is_finalize (log_part s ++ progress_part s) = [])
    by (apply tick_has_no; reflexivity).
  assert (Htick : tick taskId (PollReturns s)
                  = ((PollTaskStatus taskId :: log_part s ++ progress_part s)
                     ++ ClearInterval ::
                          match result s with
                          | Some r => [FinalizeInference (session_id r)]
                          | None => [ConsoleWarn]
                          end)%list).
  { unfold tick, terminal_part. rewrite Hs. simpl. now rewrite <- app_assoc. }
  split.
  - exists (PollTaskStatus taskId :: log_part s ++ progress_part s)%list.
    split; [exact Htick|]. simpl. split; assumption.
  - rewrite Htick, filter_app. simpl filter at 1. rewrite Hfin.
    destruct (result s); reflexivity.
Qed.

Lemma success_tick_finalizes_or_warns_witness :
  filter is_finalize (tick "t1" (PollReturns Samples.success_status))
  = [FinalizeInference "s1"].
Proof.
  apply (proj2 (success_tick_finalizes_or_warns "t1" Samples.success_status eq_refl)).
Defined.



(** X20.  What a tick logs.  A response with a non-empty [logs] array feeds
    that array to the console and not its status text; one without logs
    feeds its non-empty status text instead.  A FAILURE adds the
    [[STOPPED]] line as an error, so a failed job without logs shows its
    status text twice. *)
Theorem tick_console_feed (taskId : string) (s : Status) :
  console_calls (tick taskId (PollReturns s))
  = (console_calls (log_part s)
     ++ if state_is s "FAILURE" then [(Console.Text (stopped_text s), false, true)] else [])%list
  /\ (forall line rest,
         logs s = Some (line :: rest) ->
         console_calls (log_part s) = [(Console.Snapshot (line :: rest), false, false)])
  /\ (forall text,
         logs s = None \/ logs s = Some [] ->
         status s = Some text -> text <> "" ->
         console_calls (log_part s) = [(Console.Text text, false, false)]
         /\ (state_is s "FAILURE" = true ->
             console_calls (tick taskId (PollReturns s))
             = [(Console.Text text, false, false);
                (Console.Text ("[STOPPED] " ++ text), false, true)])).
Proof.
  assert (Hfeed : console_calls (tick taskId (PollReturns s))
                  = (console_calls (log_part s)
                     ++ if state_is s "FAILURE"
                        then [(Console.Text (stopped_text s), false, true)] else [])%list).
  { unfold tick, console_calls. simpl flat_map. rewrite !flat_map_app.
    assert (Hp : flat_map (fun e => match e with
                                    | LogConsole content a b => [(content, a, b)]
                                    | _ => []
                                    end) (progress_part s) = []).
    { unfold progress_part. destruct (step s), (total s); try reflexivity.
      destruct (_ && _); reflexivity. }
    rewrite Hp. simpl app. f_equal. unfold terminal_part.
    destruct (state_is s "SUCCESS") eqn:S.
    - assert (F : state_is s "FAILURE" = false).
      { unfold state_is in *. destruct (state s) as [st|]; [|reflexivity].
        apply String.eqb_eq in S. now subst st. }
      rewrite F. destruct (result s); reflexivity.
    - destruct (state_is s "FAILURE"); reflexivity. }
  split; [exact Hfeed|]. split.
  - intros line rest Hl. unfold log_part. now rewrite Hl.
  - intros text Hl Hst Hne.
    assert (Hlog : console_calls (log_part s) = [(Console.Text text, false, false)]).
    { unfold log_part. rewrite Hst. unfold truthy_string.
      destruct (String.eqb_spec text ""); [contradiction|].
      destruct Hl as [-> | ->]; reflexivity. }
    split; [exact Hlog|]. intros Hf. rewrite Hfeed, Hlog, Hf.
    unfold stopped_text. now rewrite Hst.
Qed.

Lemma tick_console_feed_witness :
  console_calls (tick "t1" (PollReturns Samples.failed_status))
  = [(Console.Text "boom", false, false); (Console.Text "[STOPPED] boom", false, true)].
Proof.
  apply (proj2 (proj2 (tick_console_feed "t1" Samples.failed_status)) "boom").
  - now left.
  - reflexivity.
  - discriminate.
  - reflexivity.
Defined.



End PollerMore.

(** ** The monitoring deck *)

Module MonitorMore.

Import Monitor.

Lemma clearInterval_single (id : nat) : clearInterval id [id] = [].
Proof. unfold clearInterval. simpl. now rewrite Nat.eqb_refl. Qed.

Lemma call_keeps_one_interval (c : Call) (d : Deck) :
  one_interval d -> one_interval (call c d).
Proof.
  unfold one_interval. intros (Hn & Ht & Hr).
  destruct c as [| |id]; cbn [call].
  - unfold start. destruct (isPolling d) eqn:P.
    + rewrite P. auto.
    + cbn [isPolling timer running next_id]. rewrite Hr.
      split; [lia|]. split; [lia|reflexivity].
  - unfold stop. destruct (timer d) as [[|id]|] eqn:T;
      cbn [isPolling timer running next_id]; rewrite ?T.
    + lia.
    + split; [exact Hn|]. split; [exact Ht|].
      rewrite Hr. destruct (isPolling d); [apply clearInterval_single|reflexivity].
    + split; [exact Hn|]. split; [reflexivity|].
      rewrite Hr. destruct (isPolling d); [discriminate|reflexivity].
  - unfold fire. destruct (existsb _ _);
      cbn [isPolling timer running next_id]; auto.
Qed.

(** X21.  The deck never has two intervals set.  From a fresh deck, after
    any sequence of starts, stops and timer firings, the intervals set in
    the browser are exactly the deck's own one while it polls and none
    while it does not; so a second [start()] changes nothing, and after
    [stop()] no interval is left. *)
Theorem deck_has_one_interval (first_id : nat) (cs : list Call) :
  (0 < first_id)%nat ->
  one_interval (calls cs (fresh first_id))
  /\ (length (running (calls cs (fresh first_id))) <= 1)%nat
  /\ start (start (calls cs (fresh first_id))) = start (calls cs (fresh first_id))
  /\ running (stop (calls cs (fresh first_id))) = [].
Proof.
  intros Hid.
  assert (Hinv : one_interval (calls cs (fresh first_id))).
  { unfold calls. generalize (fresh first_id),
      (conj Hid (conj eq_refl eq_refl) : one_interval (fresh first_id)).
    induction cs as [|c cs IH]; intros d Hd; [exact Hd|].
    simpl. apply IH. now apply call_keeps_one_interval. }
  split; [exact Hinv|].
  set (d := calls cs (fresh first_id)) in *.
  destruct Hinv as (Hn & Ht & Hr). split; [|split].
  - rewrite Hr. destruct (isPolling d); [destruct (timer d)|]; simpl; lia.
  - unfold start. destruct (isPolling d) eqn:P; [now rewrite P|].
    cbn [isPolling]. reflexivity.
  - unfold stop. destruct (timer d) as [[|id]|] eqn:T; cbn [running].
    + lia.
    + rewrite Hr. destruct (isPolling d); [apply clearInterval_single|reflexivity].
    + rewrite Hr. destruct (isPolling d); [discriminate|reflexivity].
Qed.

Lemma deck_has_one_interval_witness :
  running (calls [Start; Start; Fire 1; Stop; Start] (fresh 1)) = [2%nat]
  /\ (length (running (calls [Start; Start; Fire 1; Stop; Start] (fresh 1))) <= 1)%nat.
Proof.
  split; [reflexivity|].
  apply (deck_has_one_interval 1 [Start; Start; Fire 1; Stop; Start]). lia.
Defined.

End MonitorMore.

(** ** The HTTP client *)

Module HttpMore.

Import Http.

Local Open Scope string_scope.

Lemma lookup_set (key k value : string) (h : Headers) :
  lookup key (set k value h) = if String.eqb k key then Some value else lookup key h.
Proof.
  induction h as [|[k0 v0] rest IH]; simpl.
  - reflexivity.
  - destruct (String.eqb_spec k0 k) as [E|E]; simpl.
    + subst k0. destruct (String.eqb k key); reflexivity.
    + destruct (String.eqb_spec k0 key) as [E'|E'].
      * subst k0. destruct (String.eqb_spec k key); [congruence|reflexivity].
      * exact IH.
Qed.

Lemma lookup_app (key : string) (h1 h2 : Headers) :
  lookup key (h1 ++ h2)%list = match lookup key h1 with
                               | Some v => Some v
                               | None => lookup key h2
                               end.
Proof.
  induction h1 as [|[k v] rest IH]; simpl; [reflexivity|].
  destruct (String.eqb k key); [reflexivity|exact IH].
Qed.

Lemma lookup_spread (key : string) (extra : Headers) :
  forall base,
    lookup key (spread base extra)
    = match given key extra with
      | Some v => Some v
      | None => lookup key base
      end.
Proof.
  unfold spread, given.
  induction extra as [|[k v] rest IH]; intros base; simpl; [reflexivity|].
  rewrite IH, lookup_app, lookup_set. simpl.
  destruct (lookup key (rev rest)); [reflexivity|].
  destruct (String.eqb k key); reflexivity.
Qed.

Lemma lookup_delete (key k : string) (h : Headers) :
  lookup key (delete k h) = if String.eqb k key then None else lookup key h.
Proof.
  unfold delete. induction h as [|[k0 v0] rest IH]; simpl.
  - now destruct (String.eqb k key).
  - destruct (String.eqb_spec k0 k) as [E|E]; simpl.
    + subst k0. rewrite IH. destruct (String.eqb k key); reflexivity.
    + rewrite IH. destruct (String.eqb_spec k key) as [E'|E'].
      * subst key. destruct (String.eqb_spec k0 k); [congruence|reflexivity].
      * reflexivity.
Qed.

(** X22.  The headers of a request.  Every header the caller gives is sent
    with the caller's value, and [Accept] and [Content-Type] default to
    [application/json]; but a request whose body is a [FormData] object is
    sent without any [Content-Type] header, whatever the caller gave under
    that key, as a [post] of a form is. *)
Theorem request_headers (options : Options) (key : string) :
  lookup key (config_headers (config_of options))
  = (if is_form_data (body options) && String.eqb "Content-Type" key then None
     else match given key (match headers options with
                           | Some h => h
                           | None => []
                           end) with
          | Some v => Some v
          | None => lookup key defaultHeaders
          end)
  /\ (forall parts h,
         lookup "Content-Type" (config_headers (config_of (post_options (FormPayload parts) h)))
         = None)
  /\ (forall stringified h,
         given "Content-Type" h = None ->
         lookup "Content-Type"
                (config_headers (config_of (post_options (JsonPayload stringified) h)))
         = Some "application/json").
Proof.
  assert (H : forall o k,
             lookup k (config_headers (config_of o))
             = (if is_form_data (body o) && String.eqb "Content-Type" k then None
                else match given k (match headers o with
                                    | Some h => h
                                    | None => []
                                    end) with
                     | Some v => Some v
                     | None => lookup k defaultHeaders
                     end)).
  { intros o k. unfold config_of. simpl config_headers.
    destruct (is_form_data (body o)); simpl andb.
    - rewrite lookup_delete, lookup_spread. reflexivity.
    - apply lookup_spread. }
  split; [apply H|]. split.
  - intros parts h. rewrite H. reflexivity.
  - intros stringified h Hg. rewrite H. unfold post_options. cbn [headers body].
    rewrite Hg. destruct stringified; reflexivity.
Qed.

Lemma request_headers_witness :
  lookup "Content-Type"
         (config_headers (config_of (post_options (JsonPayload (Some "{}"))
                                                  [("X-Trace", "1")])))
  = Some "application/json".
Proof.
  apply (proj2 (proj2 (request_headers
                         (post_options (JsonPayload (Some "{}")) [("X-Trace", "1")])
                         "Content-Type"))).
  reflexivity.
Defined.

End HttpMore.
